(** * Recipe calculator: ingredient totals over a networkx digraph

    A shallow embedding of [solve.py]: [build_graph] and [get_ingredients],
    together with the networkx operations they call ([DiGraph.add_edge],
    [nx.predecessor], [nx.subgraph], the node and edge views of a subgraph and
    [nx.all_simple_edge_paths]).

    Numbers are Python integers, modelled as [Z]; the program is given once
    more over any kind of number, and run on floats, where a property depends
    on exact arithmetic.  Python dictionaries keep
    their insertion order, which the program iterates over, so they are
    association lists with the update-in-place discipline of [dict]. *)

From Stdlib Require Import List String ZArith Bool Arith Lia Permutation.
From Stdlib Require PrimFloat.
Import ListNotations.

Local Open Scope string_scope.
Local Open Scope list_scope.

(** Node names are strings (recipe and ingredient names). *)
Definition node := string.

(* ------------------------------------------------------------------ *)
(** ** Insertion-ordered dictionaries keyed by node name *)

Module Dict.
Section Ops.
Context {V : Type}.

Definition dict := list (node * V).

Definition keys (d : dict) : list node := map fst d.

(** [d.get(k)] *)
Fixpoint get (d : dict) (k : node) : option V :=
  match d with
  | [] => None
  | (k', v) :: d' => if String.eqb k' k then Some v else get d' k
  end.

(** [k in d] *)
Definition mem (d : dict) (k : node) : bool :=
  match get d k with Some _ => true | None => false end.

(** [d[k] = v]: an existing key keeps its position, a new key goes last. *)
Fixpoint set (d : dict) (k : node) (v : V) : dict :=
  match d with
  | [] => [(k, v)]
  | (k', v') :: d' =>
      if String.eqb k' k then (k', v) :: d' else (k', v') :: set d' k v
  end.

(** [del d[k]] on a dictionary that holds [k]. *)
Fixpoint del (d : dict) (k : node) : dict :=
  match d with
  | [] => []
  | (k', v') :: d' => if String.eqb k' k then d' else (k', v') :: del d' k
  end.

(** [dict(pairs)]: later pairs overwrite earlier ones. *)
Definition of_pairs (l : list (node * V)) : dict :=
  fold_left (fun d kv => set d (fst kv) (snd kv)) l [].
End Ops.
Arguments dict : clear implicits.
End Dict.

(** Membership in a list of names, as [n in l]. *)
Definition mem_node (n : node) (l : list node) : bool :=
  existsb (String.eqb n) l.

(* ------------------------------------------------------------------ *)
(** ** The graph model: [networkx.DiGraph]

    A [DiGraph] stores [_adj], a dictionary from each node to the dictionary
    of its successors, whose values are the edge attributes.  [_node] has the
    same keys in the same order, so the node list is the key list of [_adj].
    The only edge attribute the program reads is ["Ingredient Rate"]; an edge
    carries that number. *)

Definition DiGraph := Dict.dict (Dict.dict Z).

Definition nodes (g : DiGraph) : list node := Dict.keys g.

(** [G[v]], the successor dictionary of [v]. *)
Definition adj (g : DiGraph) (v : node) : Dict.dict Z :=
  match Dict.get g v with Some d => d | None => [] end.

(** Iterating [G[v]] yields the successors of [v]. *)
Definition succs (g : DiGraph) (v : node) : list node := Dict.keys (adj g v).

(** [G.edges[u, v]["Ingredient Rate"]] when the edge exists. *)
Definition edge_rate (g : DiGraph) (u v : node) : option Z :=
  Dict.get (adj g u) v.

(** [DiGraph.add_node] *)
Definition add_node (g : DiGraph) (u : node) : DiGraph :=
  if Dict.mem g u then g else Dict.set g u [].

(** [DiGraph.add_edge(u, v)] followed by the update of the edge's attribute
    dictionary with the row's rate, as [from_pandas_edgelist] does for each
    row: both end points become nodes, then [_adj[u][v]] is created or
    updated in place. *)
Definition add_edge (g : DiGraph) (u v : node) (rate : Z) : DiGraph :=
  let g1 := add_node (add_node g u) v in
  Dict.set g1 u (Dict.set (adj g1 u) v rate).

(** A row of the edge list: [Recipe], [Ingredient], [Ingredient Rate]. *)
Definition row := (node * node * Z)%type.

(** [build_graph], from the data frame that [pd.read_csv] returned:
    [nx.from_pandas_edgelist] adds the rows one by one to an empty
    [DiGraph].  The rows are those of the data frame, with strings in its
    [Recipe] and [Ingredient] columns; how [pd.read_csv] gets them from the
    text of the file (its parsing, and its reading of numerals and of
    markers such as [NA] as values that are no strings) is not part of the
    model. *)
Definition build_graph (rows : list row) : DiGraph :=
  fold_left (fun g '(s, t, r) => add_edge g s t r) rows [].

(** The invariants of a [DiGraph]: node keys are unique, the successor keys
    of each node are unique, and every successor is itself a node. *)
Fixpoint nodupb (l : list node) : bool :=
  match l with
  | [] => true
  | x :: l' => negb (mem_node x l') && nodupb l'
  end.

Definition wf_graph (g : DiGraph) : bool :=
  nodupb (nodes g)
  && forallb (fun '(_, d) =>
                nodupb (Dict.keys d)
                && forallb (fun w => mem_node w (nodes g)) (Dict.keys d)) g.

(** Reachability along directed edges. *)
Inductive reach (g : DiGraph) (x : node) : node -> Prop :=
| reach_refl : reach g x x
| reach_step : forall y z, reach g x y -> In z (succs g y) -> reach g x z.

(** The descendant closure of [source]: the nodes reachable from it, itself
    included. *)
Definition descendant_closure (g : DiGraph) (source x : node) : Prop :=
  reach g source x.

(** The ancestor closure of [target]: the nodes from which it is reachable,
    itself included. *)
Definition ancestor_closure (g : DiGraph) (target x : node) : Prop :=
  reach g x target.

(** The rate of the last row of the edge list with the given end points. *)
Definition last_row_rate (rows : list row) (s t : node) : option Z :=
  match find (fun '(s', t', _) => String.eqb s' s && String.eqb t' t)
             (rev rows) with
  | Some (_, _, r) => Some r
  | None => None
  end.

(* ------------------------------------------------------------------ *)
(** ** Exceptions, outcomes and the call monad *)

(** The exceptions the modelled code can raise. *)
Inductive exn :=
| NodeNotFound (n : node)   (* networkx.NodeNotFound *)
| KeyError (k : node).      (* builtins.KeyError *)

(** The part of the Python class hierarchy those exceptions live in:
    [KeyError] derives from [LookupError]; [NodeNotFound] derives from
    [NetworkXException], which derives from [Exception] directly. *)
Inductive pyclass :=
| cls_Exception
| cls_LookupError
| cls_KeyError
| cls_NetworkXException
| cls_NodeNotFound.

Definition class_of (e : exn) : pyclass :=
  match e with
  | NodeNotFound _ => cls_NodeNotFound
  | KeyError _ => cls_KeyError
  end.

(** The method resolution order of a class: itself, then its bases. *)
Definition mro (c : pyclass) : list pyclass :=
  match c with
  | cls_Exception => [cls_Exception]
  | cls_LookupError => [cls_LookupError; cls_Exception]
  | cls_KeyError => [cls_KeyError; cls_LookupError; cls_Exception]
  | cls_NetworkXException => [cls_NetworkXException; cls_Exception]
  | cls_NodeNotFound =>
      [cls_NodeNotFound; cls_NetworkXException; cls_Exception]
  end.

Definition pyclass_eqb (a b : pyclass) : bool :=
  match a, b with
  | cls_Exception, cls_Exception
  | cls_LookupError, cls_LookupError
  | cls_KeyError, cls_KeyError
  | cls_NetworkXException, cls_NetworkXException
  | cls_NodeNotFound, cls_NodeNotFound => true
  | _, _ => false
  end.

(** [isinstance(e, c)] *)
Definition isinstance (e : exn) (c : pyclass) : bool :=
  existsb (pyclass_eqb c) (mro (class_of e)).

(** What a call does: it returns a value, raises, or the bound put on an
    unbounded [while] loop of the model is used up. *)
Inductive outcome (A : Type) :=
| Returns (a : A)
| Raises (e : exn)
| OutOfFuel.
Arguments Returns {A} a.
Arguments Raises {A} e.
Arguments OutOfFuel {A}.


(** Calls run against the graph object that the caller passed by reference:
    the state is that object, handed back when the call ends. *)
Definition M (A : Type) := DiGraph -> outcome A * DiGraph.

Definition ret {A} (a : A) : M A := fun g => (Returns a, g).

Definition raise {A} (e : exn) : M A := fun g => (Raises e, g).

Definition bind {A B} (m : M A) (k : A -> M B) : M B :=
  fun g =>
    match m g with
    | (Returns a, g') => k a g'
    | (Raises e, g') => (Raises e, g')
    | (OutOfFuel, g') => (OutOfFuel, g')
    end.

(** Reading the graph object. *)
Definition gets {A} (f : DiGraph -> A) : M A := fun g => (Returns (f g), g).

Notation "x <- m ;; k" := (bind m (fun x => k))
  (at level 61, m at next level, right associativity).

(** [for a in l: s = body(a, s)] *)
Fixpoint for_each {A S} (l : list A) (body : A -> S -> M S) (s : S) : M S :=
  match l with
  | [] => ret s
  | a :: l' => s' <- body a s ;; for_each l' body s'
  end.

(** What varies between runs and library versions: the iteration order of a
    [set] of strings (string hashes are salted per process), and whether
    [all_simple_edge_paths] yields the empty path from a node to itself
    (networkx 3.2 and later do) or nothing. *)
Record PyRuntime := {
  set_iter : list node -> list node;
  set_iter_perm : forall l, Permutation (set_iter l) (nodup string_dec l);
  trivial_path : bool
}.

(** A runtime whose sets iterate in insertion order. *)
Definition insertion_runtime : PyRuntime :=
  {| set_iter := nodup string_dec;
     set_iter_perm := fun l => Permutation_refl _;
     trivial_path := true |}.

(* ------------------------------------------------------------------ *)
(** ** [nx.predecessor]: breadth-first search by levels *)

Definition bfs_state :=
  (Dict.dict nat * Dict.dict (list node) * list node)%type.

(** One pass of the body of [for w in G[v]]. *)
Definition bfs_visit (level : nat) (v : node) (st : bfs_state) (w : node)
  : bfs_state :=
  let '(seen, pred, nextlevel) := st in
  match Dict.get seen w with
  | None => (Dict.set seen w level, Dict.set pred w [v], nextlevel ++ [w])
  | Some l =>
      if Nat.eqb l level
      then (seen,
            match Dict.get pred w with
            | Some vs => Dict.set pred w (vs ++ [v])
            | None => pred
            end,
            nextlevel)
      else st
  end.

(** [for v in thislevel: for w in G[v]: ...], starting a new [nextlevel]. *)
Definition bfs_level (g : DiGraph) (level : nat) (thislevel : list node)
  (seen : Dict.dict nat) (pred : Dict.dict (list node)) : bfs_state :=
  fold_left (fun st v => fold_left (bfs_visit level v) (succs g v) st)
            thislevel (seen, pred, []).

(** [while nextlevel: ...]; [None] when the bound is used up. *)
Fixpoint bfs_loop (fuel : nat) (g : DiGraph) (level : nat)
  (nextlevel : list node) (seen : Dict.dict nat)
  (pred : Dict.dict (list node)) : option (Dict.dict (list node)) :=
  match nextlevel with
  | [] => Some pred
  | _ :: _ =>
      match fuel with
      | O => None
      | S fuel' =>
          let level' := S level in
          let '(seen', pred', next') :=
            bfs_level g level' nextlevel seen pred in
          bfs_loop fuel' g level' next' seen' pred'
      end
  end.

(** [nx.predecessor(G, source)]: the dictionary of every node found from
    [source], each with its predecessors on shortest paths. *)
Definition predecessor (source : node) : M (Dict.dict (list node)) :=
  fun g =>
    if negb (Dict.mem g source) then (Raises (NodeNotFound source), g)
    else
      match bfs_loop (S (List.length (nodes g))) g 0 [source]
                     [(source, 0)] [(source, [])] with
      | Some pred => (Returns pred, g)
      | None => (OutOfFuel, g)
      end.

(* ------------------------------------------------------------------ *)
(** ** [nx.subgraph]: a filtered view of the graph *)

(** The view keeps the set of induced nodes ([show_nodes]); it reads nodes
    and edges from the graph it was made from. *)
Record SubGraph := { NODE_OK : list node }.

(** [nx.subgraph(G, nbunch)]: [nbunch_iter] keeps the names that are nodes
    of [G]. *)
Definition subgraph (nbunch : list node) : M SubGraph :=
  gets (fun g => {| NODE_OK := filter (Dict.mem g) nbunch |}).

(** Iterating [sg.nodes] ([FilterAtlas.__iter__]): the induced set is
    iterated when it has less than half as many elements as the graph has
    nodes, the graph's nodes otherwise. *)
Definition sg_nodes (rt : PyRuntime) (sg : SubGraph) : M (list node) :=
  gets (fun g =>
    if Nat.ltb (2 * List.length (nodup string_dec (NODE_OK sg)))
               (List.length (nodes g))
    then filter (Dict.mem g) (set_iter rt (NODE_OK sg))
    else filter (fun n => mem_node n (NODE_OK sg)) (nodes g)).

(** [n in sg] *)
Definition sg_mem (sg : SubGraph) (g : DiGraph) (n : node) : bool :=
  Dict.mem g n && mem_node n (NODE_OK sg).

(** Iterating [sg[u]]: the successors of [u] that the view shows, in the
    order of [G[u]].  ([sg[u]] raises for a node outside the view; the path
    search only asks for nodes it reached inside it.) *)
Definition sg_succs (sg : SubGraph) (g : DiGraph) (u : node) : list node :=
  if sg_mem sg g u
  then filter (fun w => mem_node w (NODE_OK sg)) (succs g u)
  else [].

(** [sg.edges[u, v]["Ingredient Rate"]] *)
Definition sg_edge_rate (sg : SubGraph) (u v : node) : M Z :=
  fun g =>
    if sg_mem sg g u then
      match (if mem_node v (NODE_OK sg) then edge_rate g u v else None) with
      | Some r => (Returns r, g)
      | None => (Raises (KeyError v), g)
      end
    else (Raises (KeyError u), g).

(* ------------------------------------------------------------------ *)
(** ** [nx.all_simple_edge_paths] *)

Definition edge := (node * node)%type.

(** The depth-first search of the library, with its stack turned into
    recursion: [visited] is the current path, [cutoff] the number of edges
    it may still grow by.  With one target, a path ends at the target and is
    not extended through it. *)
Fixpoint simple_edge_paths (cutoff : nat) (nbrs : node -> list node)
  (visited : list node) (u target : node) : list (list edge) :=
  match cutoff with
  | O => []
  | S c =>
      flat_map
        (fun w =>
           if mem_node w visited then []
           else if String.eqb w target then [[(u, w)]]
           else map (cons (u, w))
                    (simple_edge_paths c nbrs (visited ++ [w]) w target))
        (nbrs u)
  end.

(** [list(nx.all_simple_edge_paths(sg, source, target))] for a [target]
    that names a node; the default cutoff is [len(sg) - 1].  (For a target
    that is no node the library reads it as a collection of targets; the
    program never asks for that, and the model raises instead.) *)
Definition all_simple_edge_paths (rt : PyRuntime) (sg : SubGraph)
  (source target : node) : M (list (list edge)) :=
  ns <- sg_nodes rt sg ;;
  fun g =>
    if negb (sg_mem sg g source) then (Raises (NodeNotFound source), g)
    else if negb (sg_mem sg g target) then (Raises (NodeNotFound target), g)
    else if String.eqb source target
    then (Returns (if trivial_path rt then [[]] else []), g)
    else (Returns (simple_edge_paths (List.length ns - 1) (sg_succs sg g)
                                     [source] source target), g).

(* ------------------------------------------------------------------ *)
(** ** [get_ingredients] *)

(** [d[k] += x] *)
Definition dict_iadd (d : Dict.dict Z) (k : node) (x : Z) : M (Dict.dict Z) :=
  match Dict.get d k with
  | Some v => ret (Dict.set d k (v + x)%Z)
  | None => raise (KeyError k)
  end.

(** [del d[k]] *)
Definition dict_del (d : Dict.dict Z) (k : node) : M (Dict.dict Z) :=
  if Dict.mem d k then ret (Dict.del d k) else raise (KeyError k).

(** The innermost loop: [product] times the rate of each edge of [path]. *)
Definition path_product (sg : SubGraph) (num_output : Z) (path : list edge)
  : M Z :=
  for_each path
    (fun '(u, v) product =>
       r <- sg_edge_rate sg u v ;; ret (product * r)%Z)
    num_output.

Definition get_ingredients (rt : PyRuntime) (recipe : node) (num_output : Z)
  : M (Dict.dict Z) :=
  p <- predecessor recipe ;;
  sg <- subgraph (Dict.keys p) ;;
  ns <- sg_nodes rt sg ;;
  let ingredients :=
    Dict.of_pairs (combine ns (map (fun _ => 0%Z) (seq 0 (List.length ns)))) in
  let ingredients := Dict.set ingredients recipe num_output in
  ingredients <-
    for_each (Dict.keys ingredients)
      (fun ing ingredients =>
         paths <- all_simple_edge_paths rt sg recipe ing ;;
         for_each paths
           (fun path ingredients =>
              product <- path_product sg num_output path ;;
              dict_iadd ingredients ing product)
           ingredients)
      ingredients ;;
  dict_del ingredients recipe.

(** The mapping a call returned, each value multiplied by [k]. *)
Definition scale (k : Z) (d : Dict.dict Z) : Dict.dict Z :=
  map (fun '(x, v) => (x, (v * k)%Z)) d.

(** The graphs of the examples. *)
Definition diamond : DiGraph :=
  build_graph [("A", "B", 2%Z); ("A", "C", 3%Z);
               ("B", "D", 5%Z); ("C", "D", 7%Z)].

Definition single_edge (r : Z) : DiGraph := build_graph [("A", "B", r)].

(* ------------------------------------------------------------------ *)
(** ** Simple paths and the quantities they carry *)

(** [p] is a chain of edges leading from [u] to [t], each edge taken from
    the successor lists [nbrs]. *)
Fixpoint chain (nbrs : node -> list node) (u : node) (p : list edge)
  (t : node) : Prop :=
  match p with
  | [] => u = t
  | (x, y) :: p' => x = u /\ In y (nbrs u) /\ chain nbrs y p' t
  end.

(** A simple path of the graph from [source] to [target]: at least one
    edge, and no node visited twice. *)
Definition simple_path (g : DiGraph) (source target : node) (p : list edge)
  : Prop :=
  p <> [] /\ chain (succs g) source p target /\ NoDup (source :: map snd p).

(** The rate on an edge of the graph. *)
Definition rate_of (g : DiGraph) (e : edge) : Z :=
  match edge_rate g (fst e) (snd e) with Some r => r | None => 0%Z end.

(** [num_output] multiplied by the rate of each edge of the path in turn,
    as the innermost loop of [get_ingredients] computes it. *)
Definition path_value (g : DiGraph) (num_output : Z) (p : list edge) : Z :=
  fold_left (fun product e => (product * rate_of g e)%Z) p num_output.

Definition Zsum (l : list Z) : Z := fold_right Z.add 0%Z l.

(** Every rate of the graph is at least [lo]. *)
Definition rates_at_least (lo : Z) (g : DiGraph) : bool :=
  forallb (fun '(_, d) => forallb (fun '(_, r) => Z.leb lo r) d) g.

(** The names the rows of an edge list mention, in order. *)
Definition row_names (rows : list row) : list node :=
  flat_map (fun '(s, t, _) => [s; t]) rows.

(** The end points of the rows of an edge list. *)
Definition row_pairs (rows : list row) : list (node * node) :=
  map (fun '(s, t, _) => (s, t)) rows.

(** The names of a list in the order of their first occurrence. *)
Definition first_seen (l : list node) : list node :=
  fold_left (fun acc x => if mem_node x acc then acc else acc ++ [x]) l [].

(** No two pairs of the list are equal. *)
Fixpoint pairs_distinct (l : list (node * node)) : bool :=
  match l with
  | [] => true
  | (s, t) :: l' =>
      negb (existsb (fun '(s', t') => String.eqb s s' && String.eqb t t') l')
      && pairs_distinct l'
  end.




(* ------------------------------------------------------------------ *)
(** ** The same program over any kind of number

    [num_output] and the rates may be Python ints or floats.  The
    definitions above are the program on ints; here they are once more with
    the number type, its zero, its addition and its multiplication left
    open.  Nothing but the numbers differs. *)

Module Generic.
Section Numbers.
Variable num : Type.
Variable zero : num.
Variable add mul : num -> num -> num.

Definition DiGraph := Dict.dict (Dict.dict num).

Definition nodes (g : DiGraph) : list node := Dict.keys g.

Definition adj (g : DiGraph) (v : node) : Dict.dict num :=
  match Dict.get g v with Some d => d | None => [] end.

Definition succs (g : DiGraph) (v : node) : list node := Dict.keys (adj g v).

Definition edge_rate (g : DiGraph) (u v : node) : option num :=
  Dict.get (adj g u) v.

Definition add_node (g : DiGraph) (u : node) : DiGraph :=
  if Dict.mem g u then g else Dict.set g u [].

Definition add_edge (g : DiGraph) (u v : node) (rate : num) : DiGraph :=
  let g1 := add_node (add_node g u) v in
  Dict.set g1 u (Dict.set (adj g1 u) v rate).

Definition row := (node * node * num)%type.

Definition build_graph (rows : list row) : DiGraph :=
  fold_left (fun g '(s, t, r) => add_edge g s t r) rows [].

Definition M (A : Type) := DiGraph -> outcome A * DiGraph.

Definition ret {A} (a : A) : M A := fun g => (Returns a, g).

Definition raise {A} (e : exn) : M A := fun g => (Raises e, g).

Definition bind {A B} (m : M A) (k : A -> M B) : M B :=
  fun g =>
    match m g with
    | (Returns a, g') => k a g'
    | (Raises e, g') => (Raises e, g')
    | (OutOfFuel, g') => (OutOfFuel, g')
    end.

Definition gets {A} (f : DiGraph -> A) : M A := fun g => (Returns (f g), g).

Fixpoint for_each {A S} (l : list A) (body : A -> S -> M S) (s : S) : M S :=
  match l with
  | [] => ret s
  | a :: l' => bind (body a s) (fun s' => for_each l' body s')
  end.

Definition bfs_level (g : DiGraph) (level : nat) (thislevel : list node)
  (seen : Dict.dict nat) (pred : Dict.dict (list node)) : bfs_state :=
  fold_left (fun st v => fold_left (bfs_visit level v) (succs g v) st)
            thislevel (seen, pred, []).

Fixpoint bfs_loop (fuel : nat) (g : DiGraph) (level : nat)
  (nextlevel : list node) (seen : Dict.dict nat)
  (pred : Dict.dict (list node)) : option (Dict.dict (list node)) :=
  match nextlevel with
  | [] => Some pred
  | _ :: _ =>
      match fuel with
      | O => None
      | S fuel' =>
          let level' := S level in
          let '(seen', pred', next') :=
            bfs_level g level' nextlevel seen pred in
          bfs_loop fuel' g level' next' seen' pred'
      end
  end.

Definition predecessor (source : node) : M (Dict.dict (list node)) :=
  fun g =>
    if negb (Dict.mem g source) then (Raises (NodeNotFound source), g)
    else
      match bfs_loop (S (List.length (nodes g))) g 0 [source]
                     [(source, 0)] [(source, [])] with
      | Some pred => (Returns pred, g)
      | None => (OutOfFuel, g)
      end.

Definition subgraph (nbunch : list node) : M SubGraph :=
  gets (fun g => {| NODE_OK := filter (Dict.mem g) nbunch |}).

Definition sg_nodes (rt : PyRuntime) (sg : SubGraph) : M (list node) :=
  gets (fun g =>
    if Nat.ltb (2 * List.length (nodup string_dec (NODE_OK sg)))
               (List.length (nodes g))
    then filter (Dict.mem g) (set_iter rt (NODE_OK sg))
    else filter (fun n => mem_node n (NODE_OK sg)) (nodes g)).

Definition sg_mem (sg : SubGraph) (g : DiGraph) (n : node) : bool :=
  Dict.mem g n && mem_node n (NODE_OK sg).

Definition sg_succs (sg : SubGraph) (g : DiGraph) (u : node) : list node :=
  if sg_mem sg g u
  then filter (fun w => mem_node w (NODE_OK sg)) (succs g u)
  else [].

Definition sg_edge_rate (sg : SubGraph) (u v : node) : M num :=
  fun g =>
    if sg_mem sg g u then
      match (if mem_node v (NODE_OK sg) then edge_rate g u v else None) with
      | Some r => (Returns r, g)
      | None => (Raises (KeyError v), g)
      end
    else (Raises (KeyError u), g).

Definition all_simple_edge_paths (rt : PyRuntime) (sg : SubGraph)
  (source target : node) : M (list (list edge)) :=
  bind (sg_nodes rt sg) (fun ns =>
  fun g =>
    if negb (sg_mem sg g source) then (Raises (NodeNotFound source), g)
    else if negb (sg_mem sg g target) then (Raises (NodeNotFound target), g)
    else if String.eqb source target
    then (Returns (if trivial_path rt then [[]] else []), g)
    else (Returns (simple_edge_paths (List.length ns - 1) (sg_succs sg g)
                                     [source] source target), g)).

Definition dict_iadd (d : Dict.dict num) (k : node) (x : num)
  : M (Dict.dict num) :=
  match Dict.get d k with
  | Some v => ret (Dict.set d k (add v x))
  | None => raise (KeyError k)
  end.

Definition dict_del (d : Dict.dict num) (k : node) : M (Dict.dict num) :=
  if Dict.mem d k then ret (Dict.del d k) else raise (KeyError k).

Definition path_product (sg : SubGraph) (num_output : num)
  (path : list edge) : M num :=
  for_each path
    (fun '(u, v) product =>
       bind (sg_edge_rate sg u v) (fun r => ret (mul product r)))
    num_output.

Definition get_ingredients (rt : PyRuntime) (recipe : node)
  (num_output : num) : M (Dict.dict num) :=
  bind (predecessor recipe) (fun p =>
  bind (subgraph (Dict.keys p)) (fun sg =>
  bind (sg_nodes rt sg) (fun ns =>
  let ingredients :=
    Dict.of_pairs (combine ns (map (fun _ => zero) (seq 0 (List.length ns)))) in
  let ingredients := Dict.set ingredients recipe num_output in
  bind
    (for_each (Dict.keys ingredients)
       (fun ing ingredients =>
          bind (all_simple_edge_paths rt sg recipe ing) (fun paths =>
          for_each paths
            (fun path ingredients =>
               bind (path_product sg num_output path) (fun product =>
               dict_iadd ingredients ing product))
            ingredients))
       ingredients)
    (fun ingredients => dict_del ingredients recipe)))).

Definition scale (k : num) (d : Dict.dict num) : Dict.dict num :=
  map (fun '(x, v) => (x, mul v k)) d.
End Numbers.
End Generic.

(** The program on Python floats: IEEE 754 binary64 numbers, rounded to
    nearest. *)
Module Float64.
Import PrimFloat.

Definition get_ingredients (rt : PyRuntime) (recipe : node)
  (num_output : float) : Generic.M float (Dict.dict float) :=
  Generic.get_ingredients float 0%float add mul rt recipe num_output.

Definition scale (k : float) (d : Dict.dict float) : Dict.dict float :=
  Generic.scale float mul k d.

(** The diamond, its rates read as floats. *)
Definition diamond : Generic.DiGraph float :=
  Generic.build_graph float
    [("A", "B", 2%float); ("A", "C", 3%float);
     ("B", "D", 5%float); ("C", "D", 7%float)].

End Float64.

(** The nodes the search of [nx.predecessor] finds from [recipe], in the
    order it discovers them. *)
Definition discovered (g : DiGraph) (recipe : node) : list node :=
  match fst (predecessor recipe g) with
  | Returns p => Dict.keys p
  | _ => []
  end.

(** A graph whose nodes were added in another order than a search from [A]
    discovers them. *)
Definition reordered : DiGraph :=
  build_graph [("X", "Z", 1%Z); ("A", "Y", 1%Z); ("A", "X", 1%Z)].

(* ------------------------------------------------------------------ *)
(** ** Predicates of the proofs *)

(** The invariants of [wf_graph], as propositions. *)
Definition WF (g : DiGraph) : Prop :=
  NoDup (nodes g)
  /\ (forall u, NoDup (succs g u))
  /\ (forall u w, In w (succs g u) -> In w (nodes g)).

(** The search keeps [seen] and [pred] on the same keys, without
    repetition. *)
Definition bfs_ok (st : bfs_state) : Prop :=
  Dict.keys (fst (fst st)) = Dict.keys (snd (fst st))
  /\ NoDup (Dict.keys (snd (fst st))).

(** From [st] to [st'] the nodes [delta] were found, in that order. *)
Definition bfs_grows (st st' : bfs_state) (delta : list node) : Prop :=
  Dict.keys (snd (fst st')) = Dict.keys (snd (fst st)) ++ delta
  /\ snd st' = snd st ++ delta.

(** A computation is read-only when it hands the graph back as it got it,
    whatever its outcome. *)
Definition readonly {A} (m : M A) : Prop := forall g, snd (m g) = g.

(** Every edge of [path] is an edge the view shows. *)
Definition path_in (sg : SubGraph) (g : DiGraph) (path : list edge) : Prop :=
  forall x y, In (x, y) path -> In y (sg_succs sg g x).


(* ------------------------------------------------------------------ *)
(** ** Facts about names and dictionaries *)

Lemma mem_node_In (n : node) (l : list node) :
  mem_node n l = true <-> In n l.
Proof.
  unfold mem_node. rewrite existsb_exists. split.
  - intros [x [Hx E]]. apply String.eqb_eq in E. now subst.
  - intros H. exists n. split; [assumption | apply String.eqb_refl].
Qed.

Lemma mem_node_false (n : node) (l : list node) :
  mem_node n l = false <-> ~ In n l.
Proof.
  rewrite <- mem_node_In. destruct (mem_node n l); split; intro H;
    try reflexivity; try discriminate; try (intro; discriminate).
  exfalso. now apply H.
Qed.

Lemma nodupb_NoDup (l : list node) : nodupb l = true <-> NoDup l.
Proof.
  induction l as [|x l IH]; simpl.
  - split; [constructor | reflexivity].
  - rewrite andb_true_iff, negb_true_iff, mem_node_false, IH. split.
    + intros [H1 H2]. now constructor.
    + intros H. inversion H; subst. now split.
Qed.

Module DictFacts.
Section Facts.
Context {V : Type}.
Implicit Types (d : Dict.dict V) (k : node) (v : V).

Lemma get_None d k : Dict.get d k = None <-> ~ In k (Dict.keys d).
Proof.
  induction d as [|[k' v'] d IH]; simpl.
  - tauto.
  - destruct (String.eqb_spec k' k) as [E|E].
    + split; [discriminate | intros H; exfalso; apply H; now left].
    + rewrite IH. tauto.
Qed.

Lemma get_Some d k : (exists v, Dict.get d k = Some v) <-> In k (Dict.keys d).
Proof.
  destruct (Dict.get d k) as [v|] eqn:E.
  - split; [intros _ | intros _; now exists v].
    destruct (in_dec string_dec k (Dict.keys d)) as [H|H]; [assumption|].
    apply get_None in H. congruence.
  - apply get_None in E. split; [intros [v Hv]; discriminate | tauto].
Qed.

Lemma mem_In d k : Dict.mem d k = true <-> In k (Dict.keys d).
Proof.
  unfold Dict.mem. rewrite <- get_Some.
  destruct (Dict.get d k) as [v|]; split; intro H;
    try reflexivity; try discriminate.
  - now exists v.
  - destruct H; discriminate.
Qed.

Lemma mem_false d k : Dict.mem d k = false <-> ~ In k (Dict.keys d).
Proof.
  rewrite <- mem_In. destruct (Dict.mem d k); split; intro H;
    try reflexivity; try discriminate; try (intro; discriminate).
  exfalso. now apply H.
Qed.

Lemma get_set_eq d k v : Dict.get (Dict.set d k v) k = Some v.
Proof.
  induction d as [|[k' v'] d IH]; simpl.
  - now rewrite String.eqb_refl.
  - destruct (String.eqb_spec k' k) as [E|E]; simpl.
    + subst. now rewrite String.eqb_refl.
    + destruct (String.eqb_spec k' k); [contradiction | exact IH].
Qed.

Lemma get_set_neq d k k' v :
  k <> k' -> Dict.get (Dict.set d k v) k' = Dict.get d k'.
Proof.
  intros N. induction d as [|[k0 v0] d IH]; simpl.
  - destruct (String.eqb_spec k k'); [contradiction | reflexivity].
  - destruct (String.eqb_spec k0 k) as [E|E]; simpl.
    + subst. destruct (String.eqb_spec k k'); [contradiction | reflexivity].
    + destruct (String.eqb_spec k0 k'); [reflexivity | exact IH].
Qed.

Lemma keys_set_in d k v :
  In k (Dict.keys d) -> Dict.keys (Dict.set d k v) = Dict.keys d.
Proof.
  induction d as [|[k0 v0] d IH]; simpl; intros H.
  - contradiction.
  - destruct (String.eqb_spec k0 k) as [E|E]; simpl.
    + reflexivity.
    + f_equal. apply IH. destruct H; [contradiction | assumption].
Qed.

Lemma keys_set_notin d k v :
  ~ In k (Dict.keys d) -> Dict.keys (Dict.set d k v) = Dict.keys d ++ [k].
Proof.
  induction d as [|[k0 v0] d IH]; simpl; intros H.
  - reflexivity.
  - destruct (String.eqb_spec k0 k) as [E|E]; simpl.
    + exfalso. apply H. now left.
    + f_equal. apply IH. tauto.
Qed.

Lemma in_keys_set d k v x :
  In x (Dict.keys (Dict.set d k v)) <-> In x (Dict.keys d) \/ x = k.
Proof.
  destruct (in_dec string_dec k (Dict.keys d)) as [H|H].
  - rewrite keys_set_in by assumption. split; [tauto|].
    intros [?|?]; [assumption | now subst].
  - rewrite keys_set_notin by assumption. rewrite in_app_iff. simpl.
    split.
    + intros [?|[?|[]]]; [now left | right; now subst].
    + intros [?|?]; [now left | right; left; now subst].
Qed.

Lemma NoDup_keys_set d k v :
  NoDup (Dict.keys d) -> NoDup (Dict.keys (Dict.set d k v)).
Proof.
  intros ND. destruct (in_dec string_dec k (Dict.keys d)) as [H|H].
  - now rewrite keys_set_in.
  - rewrite keys_set_notin by assumption.
    apply NoDup_app; [assumption | repeat constructor; intros [] | ].
    intros x Hx [E|[]]. now subst.
Qed.

Lemma keys_del d k :
  NoDup (Dict.keys d) ->
  Dict.keys (Dict.del d k) = remove string_dec k (Dict.keys d).
Proof.
  induction d as [|[k0 v0] d IH]; simpl; intros ND.
  - reflexivity.
  - inversion ND as [|? ? Hn ND']; subst.
    destruct (String.eqb_spec k0 k) as [E|E]; simpl.
    + subst. destruct (string_dec k k) as [_|N]; [|contradiction].
      symmetry. now apply notin_remove.
    + destruct (string_dec k k0) as [E'|_]; [now subst|].
      simpl. f_equal. now apply IH.
Qed.

Lemma NoDup_keys_of_pairs_from (l : list (node * V)) d :
  NoDup (Dict.keys d) ->
  NoDup (Dict.keys (fold_left (fun d kv => Dict.set d (fst kv) (snd kv)) l d)).
Proof.
  revert d. induction l as [|[k v] l IH]; simpl; intros d ND.
  - assumption.
  - apply IH. now apply NoDup_keys_set.
Qed.

Lemma NoDup_keys_of_pairs (l : list (node * V)) :
  NoDup (Dict.keys (Dict.of_pairs l)).
Proof. apply NoDup_keys_of_pairs_from. constructor. Qed.

Lemma keys_of_pairs_from (l : list (node * V)) d :
  NoDup (Dict.keys d ++ map fst l) ->
  Dict.keys (fold_left (fun d kv => Dict.set d (fst kv) (snd kv)) l d)
  = Dict.keys d ++ map fst l.
Proof.
  revert d. induction l as [|[k v] l IH]; simpl; intros d ND.
  - now rewrite app_nil_r.
  - assert (Hk : ~ In k (Dict.keys d)).
    { apply NoDup_remove_2 in ND. intro. apply ND.
      apply in_or_app. now left. }
    rewrite IH; rewrite keys_set_notin by assumption.
    + now rewrite <- app_assoc.
    + now rewrite <- app_assoc.
Qed.

Lemma keys_of_pairs (l : list (node * V)) :
  NoDup (map fst l) -> Dict.keys (Dict.of_pairs l) = map fst l.
Proof. intros ND. unfold Dict.of_pairs. now rewrite keys_of_pairs_from. Qed.
End Facts.
End DictFacts.

(* ------------------------------------------------------------------ *)
(** ** The graph invariants, and the graphs [build_graph] makes *)

Lemma dict_get_In {V} (d : Dict.dict V) (k : node) (v : V) :
  Dict.get d k = Some v -> In (k, v) d.
Proof.
  induction d as [|[k0 v0] d IH]; simpl; [discriminate|].
  destruct (String.eqb_spec k0 k) as [E|E].
  - intros H. inversion H; subst. now left.
  - intros H. right. now apply IH.
Qed.

Lemma dict_In_get {V} (d : Dict.dict V) (k : node) (v : V) :
  NoDup (Dict.keys d) -> In (k, v) d -> Dict.get d k = Some v.
Proof.
  induction d as [|[k0 v0] d IH]; simpl; intros ND H; [contradiction|].
  inversion ND as [|? ? Hn ND']; subst.
  destruct H as [H|H].
  - inversion H; subst. now rewrite String.eqb_refl.
  - destruct (String.eqb_spec k0 k) as [E|E].
    + subst. exfalso. apply Hn. apply (in_map fst) in H. exact H.
    + now apply IH.
Qed.

Lemma wf_graph_WF (g : DiGraph) : wf_graph g = true <-> WF g.
Proof.
  unfold wf_graph, WF.
  rewrite andb_true_iff, nodupb_NoDup, forallb_forall. split.
  - intros [ND H]. split; [assumption|].
    assert (A : forall u, adj g u = [] \/ In (u, adj g u) g).
    { intros u. unfold adj. destruct (Dict.get g u) as [d|] eqn:E.
      - right. now apply dict_get_In.
      - now left. }
    split; intros u.
    + unfold succs. destruct (A u) as [E|E].
      * rewrite E. constructor.
      * apply H in E. apply andb_true_iff in E. now apply nodupb_NoDup.
    + intros w. unfold succs. destruct (A u) as [E|E].
      * rewrite E. intros [].
      * apply H in E. apply andb_true_iff in E. destruct E as [_ E].
        rewrite forallb_forall in E. intros Hw. now apply mem_node_In, E.
  - intros [ND [H1 H2]]. split; [assumption|].
    intros [u d] Hin.
    assert (E : adj g u = d).
    { unfold adj. now rewrite (dict_In_get g u d ND Hin). }
    apply andb_true_iff. split.
    + apply nodupb_NoDup. specialize (H1 u). unfold succs in H1.
      now rewrite E in H1.
    + apply forallb_forall. intros w Hw. apply mem_node_In.
      apply (H2 u). unfold succs. now rewrite E.
Qed.

Lemma adj_set (g : DiGraph) (u x : node) (d : Dict.dict Z) :
  adj (Dict.set g u d) x = if String.eqb u x then d else adj g x.
Proof.
  unfold adj. destruct (String.eqb_spec u x) as [E|E].
  - subst. now rewrite DictFacts.get_set_eq.
  - now rewrite DictFacts.get_set_neq.
Qed.

Lemma adj_add_node (g : DiGraph) (u x : node) :
  adj (add_node g u) x = adj g x.
Proof.
  unfold add_node. destruct (Dict.mem g u) eqn:E; [reflexivity|].
  rewrite adj_set. destruct (String.eqb_spec u x) as [E'|E']; [|reflexivity].
  subst. unfold Dict.mem in E. unfold adj.
  now destruct (Dict.get g x).
Qed.

Lemma nodes_add_node (g : DiGraph) (u x : node) :
  In x (nodes (add_node g u)) <-> In x (nodes g) \/ x = u.
Proof.
  unfold add_node, nodes. destruct (Dict.mem g u) eqn:E.
  - apply DictFacts.mem_In in E. split; [tauto|].
    intros [?|?]; [assumption | now subst].
  - apply DictFacts.in_keys_set.
Qed.

Lemma NoDup_nodes_add_node (g : DiGraph) (u : node) :
  NoDup (nodes g) -> NoDup (nodes (add_node g u)).
Proof.
  unfold add_node, nodes. destruct (Dict.mem g u); [tauto|].
  apply DictFacts.NoDup_keys_set.
Qed.

Lemma adj_add_edge (g : DiGraph) (u v x : node) (r : Z) :
  adj (add_edge g u v r) x
  = if String.eqb u x then Dict.set (adj g u) v r else adj g x.
Proof.
  unfold add_edge. rewrite adj_set. now rewrite !adj_add_node.
Qed.

Lemma nodes_add_edge (g : DiGraph) (u v x : node) (r : Z) :
  In x (nodes (add_edge g u v r)) <-> In x (nodes g) \/ x = u \/ x = v.
Proof.
  unfold add_edge, nodes. rewrite DictFacts.in_keys_set.
  fold (nodes (add_node (add_node g u) v)).
  rewrite !nodes_add_node. tauto.
Qed.

Lemma edge_rate_add_edge (g : DiGraph) (u v x y : node) (r : Z) :
  edge_rate (add_edge g u v r) x y
  = if String.eqb u x && String.eqb v y then Some r else edge_rate g x y.
Proof.
  unfold edge_rate. rewrite adj_add_edge.
  destruct (String.eqb_spec u x) as [E|E]; simpl; [subst|reflexivity].
  destruct (String.eqb_spec v y) as [E'|E'].
  - subst. apply DictFacts.get_set_eq.
  - now apply DictFacts.get_set_neq.
Qed.

Lemma WF_add_edge (g : DiGraph) (u v : node) (r : Z) :
  WF g -> WF (add_edge g u v r).
Proof.
  intros [ND [H1 H2]]. split; [|split].
  - unfold add_edge, nodes. apply DictFacts.NoDup_keys_set.
    now apply NoDup_nodes_add_node, NoDup_nodes_add_node.
  - intros x. unfold succs. rewrite adj_add_edge.
    destruct (String.eqb u x); [|apply H1].
    apply DictFacts.NoDup_keys_set. apply H1.
  - intros x w. unfold succs. rewrite adj_add_edge, nodes_add_edge.
    destruct (String.eqb u x).
    + rewrite DictFacts.in_keys_set. intros [H|H]; [|tauto].
      left. now apply (H2 u).
    + intros H. left. now apply (H2 x).
Qed.

Lemma build_graph_snoc (rows : list row) (s t : node) (r : Z) :
  build_graph (rows ++ [(s, t, r)]) = add_edge (build_graph rows) s t r.
Proof. unfold build_graph. now rewrite fold_left_app. Qed.

Lemma WF_build_graph (rows : list row) : WF (build_graph rows).
Proof.
  induction rows as [|[[s t] r] rows IH] using rev_ind.
  - repeat split; try constructor. intros u w [].
  - rewrite build_graph_snoc. now apply WF_add_edge.
Qed.

Lemma wf_build_graph (rows : list row) : wf_graph (build_graph rows) = true.
Proof. apply wf_graph_WF, WF_build_graph. Qed.

(* ------------------------------------------------------------------ *)
(** ** The breadth-first search finds exactly the reachable nodes *)

Lemma bfs_visit_spec (level : nat) (v w : node) (st : bfs_state) :
  bfs_ok st ->
  bfs_ok (bfs_visit level v st w)
  /\ In w (Dict.keys (snd (fst (bfs_visit level v st w))))
  /\ exists delta, bfs_grows st (bfs_visit level v st w) delta
                   /\ incl delta [w].
Proof.
  destruct st as [[seen pred] nl]. unfold bfs_ok, bfs_grows. simpl.
  intros [K ND].
  destruct (Dict.get seen w) as [l|] eqn:E.
  - assert (Hw : In w (Dict.keys pred)).
    { rewrite <- K. apply DictFacts.get_Some. now exists l. }
    destruct (Nat.eqb l level); simpl.
    + destruct (Dict.get pred w) as [vs|] eqn:E'.
      * rewrite DictFacts.keys_set_in by assumption.
        repeat split; try assumption.
        exists []. rewrite !app_nil_r. repeat split. intros x [].
      * repeat split; try assumption.
        exists []. rewrite !app_nil_r. repeat split. intros x [].
    + repeat split; try assumption.
      exists []. rewrite !app_nil_r. repeat split. intros x [].
  - assert (Hw : ~ In w (Dict.keys seen)) by now apply DictFacts.get_None.
    simpl. rewrite DictFacts.keys_set_notin by assumption.
    rewrite DictFacts.keys_set_notin by now rewrite <- K.
    repeat split.
    + now rewrite K.
    + rewrite <- DictFacts.keys_set_notin with (v := [v])
        by now rewrite <- K.
      now apply DictFacts.NoDup_keys_set.
    + apply in_or_app. right. now left.
    + exists [w]. repeat split. apply incl_refl.
Qed.

Lemma bfs_visits_spec (level : nat) (v : node) (ws : list node) :
  forall st, bfs_ok st ->
    let st' := fold_left (bfs_visit level v) ws st in
    bfs_ok st'
    /\ (forall w, In w ws -> In w (Dict.keys (snd (fst st'))))
    /\ exists delta, bfs_grows st st' delta /\ incl delta ws.
Proof.
  induction ws as [|w ws IH]; intros st OK; simpl.
  - repeat split; try apply OK; try contradiction.
    exists []. unfold bfs_grows. rewrite !app_nil_r. repeat split.
    intros x [].
  - destruct (bfs_visit_spec level v w st OK) as [OK1 [In1 [d1 [[G1 G1'] I1]]]].
    destruct (IH _ OK1) as [OK2 [In2 [d2 [[G2 G2'] I2]]]].
    split; [assumption|]. split.
    + intros x [<-|Hx]; [|now apply In2].
      rewrite G2. apply in_or_app. now left.
    + exists (d1 ++ d2). split.
      * unfold bfs_grows. rewrite G2, G2', G1, G1', <- !app_assoc. now split.
      * intros x Hx. apply in_app_or in Hx. destruct Hx as [Hx|Hx].
        -- apply I1 in Hx. destruct Hx as [<-|[]]. now left.
        -- right. now apply I2.
Qed.

Lemma bfs_level_spec (g : DiGraph) (level : nat) (vs : list node) :
  forall st, bfs_ok st ->
    let st' := fold_left
                 (fun st v => fold_left (bfs_visit level v) (succs g v) st)
                 vs st in
    bfs_ok st'
    /\ (forall v w, In v vs -> In w (succs g v) ->
                    In w (Dict.keys (snd (fst st'))))
    /\ exists delta, bfs_grows st st' delta
         /\ forall x, In x delta -> exists v, In v vs /\ In x (succs g v).
Proof.
  induction vs as [|v vs IH]; intros st OK; simpl.
  - repeat split; try apply OK; try contradiction.
    exists []. unfold bfs_grows. rewrite !app_nil_r. repeat split.
    intros x [].
  - destruct (bfs_visits_spec level v (succs g v) st OK)
      as [OK1 [In1 [d1 [[G1 G1'] I1]]]].
    destruct (IH _ OK1) as [OK2 [In2 [d2 [[G2 G2'] I2]]]].
    split; [assumption|]. split.
    + intros x w [<-|Hx] Hw; [|now apply (In2 x)].
      rewrite G2. apply in_or_app. left. now apply In1.
    + exists (d1 ++ d2). split.
      * unfold bfs_grows. rewrite G2, G2', G1, G1', <- !app_assoc. now split.
      * intros x Hx. apply in_app_or in Hx. destruct Hx as [Hx|Hx].
        -- exists v. split; [now left | now apply I1].
        -- destruct (I2 x Hx) as [v' [Hv' Hs]]. exists v'. split;
             [now right | assumption].
Qed.

Lemma bfs_loop_spec (g : DiGraph) (source : node) :
  (forall u w, In w (succs g u) -> In w (nodes g)) ->
  forall fuel level F seen pred,
    bfs_ok (seen, pred, F) ->
    incl (Dict.keys pred) (nodes g) ->
    In source (Dict.keys pred) ->
    (forall x, In x (Dict.keys pred) -> reach g source x) ->
    (forall x, In x (Dict.keys pred) ->
               In x F \/ forall w, In w (succs g x) -> In w (Dict.keys pred)) ->
    incl F (Dict.keys pred) ->
    List.length (nodes g) + List.length F
      < fuel + List.length (Dict.keys pred) ->
    exists p, bfs_loop fuel g level F seen pred = Some p
              /\ NoDup (Dict.keys p)
              /\ forall x, In x (Dict.keys p) <-> reach g source x.
Proof.
  intros Hnodes. induction fuel as [|fuel IH];
    intros level F seen pred OK Hincl Hsrc Hsound Hclosed HF Hlen.
  - destruct F as [|v F].
    + exists pred. simpl. split; [reflexivity|]. split; [apply OK|].
      intros x. split; [apply Hsound|].
      induction 1 as [|y z _ IHr Hz]; [assumption|].
      destruct (Hclosed y IHr) as [[]|Hc]. now apply Hc.
    + exfalso. destruct OK as [_ ND]. simpl in ND, Hlen.
      pose proof (NoDup_incl_length ND Hincl). lia.
  - destruct F as [|v F].
    + exists pred. simpl. split; [reflexivity|]. split; [apply OK|].
      intros x. split; [apply Hsound|].
      induction 1 as [|y z _ IHr Hz]; [assumption|].
      destruct (Hclosed y IHr) as [[]|Hc]. now apply Hc.
    + cbn [bfs_loop]. unfold bfs_level.
      assert (OK0 : bfs_ok (seen, pred, @nil node)) by exact OK.
      pose proof (bfs_level_spec g (S level) (v :: F) _ OK0) as L.
      cbv zeta in L.
      destruct (fold_left
                  (fun st v => fold_left (bfs_visit (S level) v) (succs g v) st)
                  (v :: F) (seen, pred, [])) as [[seen' pred'] next'].
      destruct L as [OK1 [Hcov [delta [[G G'] Hd]]]].
      simpl in OK1, Hcov, G, G'. subst next'.
      apply IH.
      * exact OK1.
      * rewrite G. intros x Hx. apply in_app_or in Hx. destruct Hx as [Hx|Hx].
        -- now apply Hincl.
        -- destruct (Hd x Hx) as [u [_ Hu]]. now apply (Hnodes u).
      * rewrite G. apply in_or_app. now left.
      * rewrite G. intros x Hx. apply in_app_or in Hx. destruct Hx as [Hx|Hx].
        -- now apply Hsound.
        -- destruct (Hd x Hx) as [u [Hu Hs]].
           apply reach_step with (y := u); [|assumption].
           apply Hsound. now apply HF.
      * rewrite G. intros x Hx. apply in_app_or in Hx. destruct Hx as [Hx|Hx].
        -- right. destruct (Hclosed x Hx) as [Hf|Hc].
           ++ intros w Hw. rewrite <- G. now apply (Hcov x).
           ++ intros w Hw. apply in_or_app. left. now apply Hc.
        -- now left.
      * rewrite G. now apply incl_appr, incl_refl.
      * rewrite G, length_app. simpl in Hlen. lia.
Qed.

(** [nx.predecessor] returns, and its keys are the nodes reachable from the
    source. *)
Lemma predecessor_spec (g : DiGraph) (source : node) :
  WF g -> In source (nodes g) ->
  exists p, predecessor source g = (Returns p, g)
            /\ NoDup (Dict.keys p)
            /\ forall x, In x (Dict.keys p) <-> reach g source x.
Proof.
  intros [ND [_ Hn]] Hs. unfold predecessor.
  apply DictFacts.mem_In in Hs. rewrite Hs. simpl negb. cbv iota.
  apply DictFacts.mem_In in Hs.
  destruct (bfs_loop_spec g source Hn (S (List.length (nodes g))) 0 [source]
              [(source, 0)] [(source, [])]) as [p [E [NDp Hp]]].
  - split; [reflexivity | simpl; repeat constructor; intros []].
  - intros x [<-|[]]. exact Hs.
  - now left.
  - intros x [<-|[]]. constructor.
  - intros x [<-|[]]. left. now left.
  - intros x [<-|[]]. now left.
  - simpl. lia.
  - exists p. rewrite E. auto.
Qed.

Lemma reach_nodes (g : DiGraph) (x y : node) :
  WF g -> In x (nodes g) -> reach g x y -> In y (nodes g).
Proof.
  intros [_ [_ Hn]] Hx. induction 1; [assumption|]. eapply Hn; eassumption.
Qed.

(* ------------------------------------------------------------------ *)
(** ** Calls that only read the graph *)

Lemma bind_Returns {A B} (m : M A) (k : A -> M B) (g g' : DiGraph) (a : A) :
  m g = (Returns a, g') -> bind m k g = k a g'.
Proof. unfold bind. now intros ->. Qed.

Lemma readonly_ret {A} (a : A) : readonly (ret a).
Proof. now intros g. Qed.

Lemma readonly_raise {A} (e : exn) : readonly (@raise A e).
Proof. now intros g. Qed.

Lemma readonly_gets {A} (f : DiGraph -> A) : readonly (gets f).
Proof. now intros g. Qed.

Lemma readonly_bind {A B} (m : M A) (k : A -> M B) :
  readonly m -> (forall a, readonly (k a)) -> readonly (bind m k).
Proof.
  intros Hm Hk g. unfold bind. specialize (Hm g).
  destruct (m g) as [[a|e|] g']; simpl in Hm; subst; try reflexivity.
  apply Hk.
Qed.

Lemma readonly_for_each {A S} (l : list A) (body : A -> S -> M S) :
  (forall a s, readonly (body a s)) -> forall s, readonly (for_each l body s).
Proof.
  intros Hb. induction l as [|a l IH]; intros s; simpl.
  - apply readonly_ret.
  - apply readonly_bind; [apply Hb | assumption].
Qed.

Lemma readonly_predecessor (source : node) : readonly (predecessor source).
Proof.
  intros g. unfold predecessor. destruct (negb _); [reflexivity|].
  now destruct (bfs_loop _ _ _ _ _ _).
Qed.

Lemma readonly_sg_edge_rate (sg : SubGraph) (u v : node) :
  readonly (sg_edge_rate sg u v).
Proof.
  intros g. unfold sg_edge_rate. destruct (sg_mem sg g u); [|reflexivity].
  now destruct (if mem_node v (NODE_OK sg) then _ else _).
Qed.

Lemma readonly_all_simple_edge_paths rt sg (source target : node) :
  readonly (all_simple_edge_paths rt sg source target).
Proof.
  unfold all_simple_edge_paths. apply readonly_bind; [apply readonly_gets|].
  intros ns g. destruct (negb (sg_mem sg g source)); [reflexivity|].
  destruct (negb (sg_mem sg g target)); [reflexivity|].
  now destruct (String.eqb source target).
Qed.

Lemma readonly_dict_iadd d k x : readonly (dict_iadd d k x).
Proof.
  unfold dict_iadd. destruct (Dict.get d k);
    [apply readonly_ret | apply readonly_raise].
Qed.

Lemma readonly_dict_del d k : readonly (dict_del d k).
Proof.
  unfold dict_del. destruct (Dict.mem d k);
    [apply readonly_ret | apply readonly_raise].
Qed.

Lemma readonly_path_product sg n path : readonly (path_product sg n path).
Proof.
  unfold path_product. apply readonly_for_each. intros [u v] s.
  apply readonly_bind; [apply readonly_sg_edge_rate|].
  intros r. apply readonly_ret.
Qed.

Lemma readonly_get_ingredients rt recipe n :
  readonly (get_ingredients rt recipe n).
Proof.
  unfold get_ingredients.
  apply readonly_bind; [apply readonly_predecessor | intros p].
  apply readonly_bind; [apply readonly_gets | intros sg].
  apply readonly_bind; [apply readonly_gets | intros ns].
  apply readonly_bind; [|intros d; apply readonly_dict_del].
  apply readonly_for_each. intros ing d.
  apply readonly_bind; [apply readonly_all_simple_edge_paths | intros paths].
  apply readonly_for_each. intros path d'.
  apply readonly_bind; [apply readonly_path_product | intros z].
  apply readonly_dict_iadd.
Qed.

(* ------------------------------------------------------------------ *)
(** ** The subgraph view and the path search *)

Lemma set_iter_In (rt : PyRuntime) (l : list node) (x : node) :
  In x (set_iter rt l) <-> In x l.
Proof.
  rewrite <- (nodup_In string_dec l x). split; apply Permutation_in.
  - apply set_iter_perm.
  - apply Permutation_sym, set_iter_perm.
Qed.

Lemma set_iter_NoDup (rt : PyRuntime) (l : list node) : NoDup (set_iter rt l).
Proof.
  apply (Permutation_NoDup (l := nodup string_dec l)).
  - apply Permutation_sym, set_iter_perm.
  - apply NoDup_nodup.
Qed.

(** The nodes of the view, in either iteration order, are the induced
    nodes, each once. *)
Lemma sg_nodes_spec (rt : PyRuntime) (sg : SubGraph) (g : DiGraph) :
  NoDup (nodes g) ->
  exists ns, sg_nodes rt sg g = (Returns ns, g)
             /\ NoDup ns
             /\ forall x, In x ns <-> sg_mem sg g x = true.
Proof.
  intros ND. unfold sg_nodes, gets.
  eexists. split; [reflexivity|].
  destruct (Nat.ltb _ _).
  - split; [apply NoDup_filter, set_iter_NoDup|].
    intros x. rewrite filter_In, set_iter_In. unfold sg_mem.
    rewrite andb_true_iff, mem_node_In. tauto.
  - split; [now apply NoDup_filter|].
    intros x. rewrite filter_In. unfold sg_mem.
    rewrite andb_true_iff, DictFacts.mem_In. tauto.
Qed.

Lemma simple_edge_paths_edges (nbrs : node -> list node) (target : node) :
  forall cutoff visited u path,
    In path (simple_edge_paths cutoff nbrs visited u target) ->
    forall x y, In (x, y) path -> In y (nbrs x).
Proof.
  induction cutoff as [|c IH]; intros visited u path; simpl; [intros []|].
  rewrite in_flat_map. intros [w [Hw Hp]] x y Hxy.
  destruct (mem_node w visited); [destruct Hp|].
  destruct (String.eqb w target).
  - destruct Hp as [<-|[]]. destruct Hxy as [E|[]]. now inversion E; subst.
  - apply in_map_iff in Hp. destruct Hp as [path' [<- Hp']].
    destruct Hxy as [E|Hxy].
    + now inversion E; subst.
    + eapply IH; eassumption.
Qed.

Lemma sg_edge_rate_returns (sg : SubGraph) (g : DiGraph) (x y : node) :
  In y (sg_succs sg g x) -> exists r, sg_edge_rate sg x y g = (Returns r, g).
Proof.
  unfold sg_succs, sg_edge_rate. destruct (sg_mem sg g x); [|intros []].
  rewrite filter_In. intros [Hs Hy]. rewrite Hy.
  apply DictFacts.get_Some in Hs. destruct Hs as [r Hr].
  unfold edge_rate. rewrite Hr. now exists r.
Qed.

(* ------------------------------------------------------------------ *)
(** ** The loops of [get_ingredients] run to their end *)

Lemma path_product_returns (sg : SubGraph) (g : DiGraph) (path : list edge) :
  path_in sg g path ->
  forall n, exists z, path_product sg n path g = (Returns z, g).
Proof.
  unfold path_product, path_in.
  induction path as [|[u v] path IH]; intros Hp n; simpl.
  - now exists n.
  - destruct (sg_edge_rate_returns sg g u v) as [r Hr].
    { apply Hp. now left. }
    destruct (IH (fun x y H => Hp x y (or_intror H)) (n * r)%Z) as [z Hz].
    exists z. erewrite bind_Returns; [exact Hz|].
    erewrite bind_Returns; [reflexivity | exact Hr].
Qed.

Lemma all_simple_edge_paths_returns rt sg (g : DiGraph) (source target : node) :
  NoDup (nodes g) ->
  sg_mem sg g source = true -> sg_mem sg g target = true ->
  exists paths,
    all_simple_edge_paths rt sg source target g = (Returns paths, g)
    /\ forall path, In path paths -> path_in sg g path.
Proof.
  intros ND Hs Ht. unfold all_simple_edge_paths.
  destruct (sg_nodes_spec rt sg g ND) as [ns [Hns _]].
  erewrite bind_Returns; [|exact Hns].
  rewrite Hs, Ht. simpl negb. cbv iota.
  destruct (String.eqb source target).
  - eexists. split; [reflexivity|].
    destruct (trivial_path rt); [|intros path []].
    intros path [<-|[]] x y [].
  - eexists. split; [reflexivity|].
    intros path Hp x y Hxy.
    eapply simple_edge_paths_edges; eassumption.
Qed.

Lemma dict_iadd_returns (d : Dict.dict Z) (k : node) (x : Z) (g : DiGraph) :
  In k (Dict.keys d) ->
  exists d', dict_iadd d k x g = (Returns d', g)
             /\ Dict.keys d' = Dict.keys d.
Proof.
  intros Hk. unfold dict_iadd.
  destruct (proj2 (DictFacts.get_Some d k) Hk) as [v ->].
  eexists. split; [reflexivity|]. now apply DictFacts.keys_set_in.
Qed.

Lemma paths_loop_returns sg (g : DiGraph) (n : Z) (ing : node) :
  forall paths d,
    In ing (Dict.keys d) ->
    (forall path, In path paths -> path_in sg g path) ->
    exists d',
      for_each paths
        (fun path ingredients =>
           product <- path_product sg n path ;;
           dict_iadd ingredients ing product) d g = (Returns d', g)
      /\ Dict.keys d' = Dict.keys d.
Proof.
  induction paths as [|path paths IH]; intros d Hk Hp; simpl.
  - now exists d.
  - destruct (path_product_returns sg g path (Hp path (or_introl eq_refl)) n)
      as [z Hz].
    destruct (dict_iadd_returns d ing z g Hk) as [d1 [H1 K1]].
    destruct (IH d1) as [d' [H' K']].
    + now rewrite K1.
    + intros q Hq. apply Hp. now right.
    + exists d'. split; [|congruence].
      erewrite bind_Returns; [exact H'|].
      erewrite bind_Returns; [exact H1 | exact Hz].
Qed.

Lemma ingredients_loop_returns rt sg (g : DiGraph) (recipe : node) (n : Z) :
  NoDup (nodes g) -> sg_mem sg g recipe = true ->
  forall ks d,
    (forall ing, In ing ks ->
                 In ing (Dict.keys d) /\ sg_mem sg g ing = true) ->
    exists d',
      for_each ks
        (fun ing ingredients =>
           paths <- all_simple_edge_paths rt sg recipe ing ;;
           for_each paths
             (fun path ingredients =>
                product <- path_product sg n path ;;
                dict_iadd ingredients ing product)
             ingredients) d g = (Returns d', g)
      /\ Dict.keys d' = Dict.keys d.
Proof.
  intros ND Hr. induction ks as [|ing ks IH]; intros d Hks; simpl.
  - now exists d.
  - destruct (Hks ing (or_introl eq_refl)) as [Hk Hm].
    destruct (all_simple_edge_paths_returns rt sg g recipe ing ND Hr Hm)
      as [paths [Hp Hin]].
    destruct (paths_loop_returns sg g n ing paths d Hk Hin) as [d1 [H1 K1]].
    destruct (IH d1) as [d' [H' K']].
    + intros x Hx. rewrite K1. apply Hks. now right.
    + exists d'. split; [|congruence].
      erewrite bind_Returns; [exact H'|].
      erewrite bind_Returns; [exact H1 | exact Hp].
Qed.

Lemma map_fst_combine {A B} (l : list A) (l' : list B) :
  List.length l = List.length l' -> map fst (combine l l') = l.
Proof.
  revert l'. induction l as [|a l IH]; intros [|b l'] H; simpl in *;
    try reflexivity; try discriminate.
  f_equal. apply IH. now inversion H.
Qed.

(** On a graph that holds the recipe, [get_ingredients] returns a mapping
    whose keys are the nodes reachable from the recipe other than the recipe
    itself, in the order the view lists them. *)
Lemma get_ingredients_returns rt (g : DiGraph) (recipe : node) (n : Z) :
  WF g -> In recipe (nodes g) ->
  exists d ns,
    get_ingredients rt recipe n g = (Returns d, g)
    /\ Dict.keys d = remove string_dec recipe ns
    /\ NoDup ns
    /\ forall x, In x ns <-> reach g recipe x.
Proof.
  intros W Hr. pose proof W as [ND _].
  destruct (predecessor_spec g recipe W Hr) as [p [Hp [NDp Hreach]]].
  destruct (sg_nodes_spec rt {| NODE_OK := filter (Dict.mem g) (Dict.keys p) |}
              g ND) as [ns [Hns [NDns Hmem]]].
  set (sg := {| NODE_OK := filter (Dict.mem g) (Dict.keys p) |}) in *.
  assert (Hin : forall x, In x ns <-> reach g recipe x).
  { intros x. rewrite Hmem. unfold sg_mem, sg. simpl.
    rewrite andb_true_iff, mem_node_In, filter_In, DictFacts.mem_In, Hreach.
    split; [tauto|]. intros R.
    pose proof (reach_nodes g recipe x W Hr R). tauto. }
  assert (Hrec : In recipe ns) by (apply Hin; constructor).
  set (d0 := Dict.set
               (Dict.of_pairs
                  (combine ns (map (fun _ => 0%Z) (seq 0 (List.length ns)))))
               recipe n).
  assert (K0 : Dict.keys d0 = ns).
  { assert (E : map fst (combine ns (map (fun _ => 0%Z)
                                         (seq 0 (List.length ns)))) = ns).
    { apply map_fst_combine. now rewrite length_map, length_seq. }
    unfold d0. rewrite DictFacts.keys_set_in;
      rewrite DictFacts.keys_of_pairs; rewrite ?E; auto. }
  destruct (ingredients_loop_returns rt sg g recipe n ND
              (proj1 (Hmem recipe) Hrec) (Dict.keys d0) d0)
    as [d1 [H1 K1]].
  { intros x Hx. split; [assumption|]. apply Hmem. now rewrite <- K0. }
  exists (Dict.del d1 recipe), ns. split; [|split; [|split]].
  - unfold get_ingredients.
    erewrite bind_Returns; [|exact Hp].
    erewrite bind_Returns; [|reflexivity]. fold sg.
    erewrite bind_Returns; [|exact Hns]. fold d0.
    erewrite bind_Returns; [|exact H1].
    unfold dict_del.
    assert (Hm : Dict.mem d1 recipe = true).
    { apply DictFacts.mem_In. now rewrite K1, K0. }
    now rewrite Hm.
  - rewrite DictFacts.keys_del; [now rewrite K1, K0|].
    now rewrite K1, K0.
  - assumption.
  - assumption.
Qed.

(* ------------------------------------------------------------------ *)
(** ** Two runs in step: the second run's values mapped by [f] *)

















(* ------------------------------------------------------------------ *)
(** ** The properties of the specification *)

Lemma reach_leaf (g : DiGraph) (x y : node) :
  succs g x = [] -> reach g x y -> y = x.
Proof.
  intros L. induction 1 as [|y z _ IH Hz]; [reflexivity|].
  subst y. rewrite L in Hz. destruct Hz.
Qed.

(** C1. On the diamond [A->B] (2), [A->C] (3), [B->D] (5), [C->D] (7),
    [get_ingredients(graph, "A", 1)] returns [{"B": 2, "C": 3, "D": 31}];
    the two simple paths from [A] to [D] are the ones through [B] and
    through [C], and [31 = 1*2*5 + 1*3*7]. *)
Theorem diamond_aggregation (rt : PyRuntime) :
  fst (get_ingredients rt "A" 1 diamond)
  = Returns [("B", 2%Z); ("C", 3%Z); ("D", 31%Z)]
  /\ fst (all_simple_edge_paths rt {| NODE_OK := ["A"; "B"; "C"; "D"] |}
            "A" "D" diamond)
     = Returns [[("A", "B"); ("B", "D")]; [("A", "C"); ("C", "D")]]
  /\ (31 = 1 * 2 * 5 + 1 * 3 * 7)%Z.
Proof.
  destruct rt as [si sp [|]]; repeat split; vm_compute; reflexivity.
Qed.

(** C2, as the specification states it, fails: on the single edge [A -> B]
    the result of [get_ingredients(graph, "A", 1)] has the key [B], which
    is no ancestor of [A]. *)
Lemma ancestor_closure_refuted :
  exists d,
    fst (get_ingredients insertion_runtime "A" 1 (single_edge 2)) = Returns d
    /\ ~ (forall x, In x (Dict.keys d)
                    <-> ancestor_closure (single_edge 2) "A" x /\ x <> "A").
Proof.
  exists [("B", 2%Z)]. split; [vm_compute; reflexivity|].
  intros H. destruct (proj1 (H "B") (or_introl eq_refl)) as [R _].
  apply reach_leaf in R; [discriminate | reflexivity].
Qed.

(** C2, amended. For a graph that holds the recipe, the key set of the
    mapping [get_ingredients(graph, recipe, n)] returns is the descendant
    closure of the recipe (the nodes reachable from it along directed
    edges, itself included) minus the recipe. *)
Theorem key_set_is_descendant_closure (rt : PyRuntime) (g : DiGraph)
  (recipe : node) (n : Z) :
  wf_graph g = true -> Dict.mem g recipe = true ->
  exists d,
    fst (get_ingredients rt recipe n g) = Returns d
    /\ forall x, In x (Dict.keys d)
                 <-> descendant_closure g recipe x /\ x <> recipe.
Proof.
  intros W Hr. apply wf_graph_WF in W. apply DictFacts.mem_In in Hr.
  destruct (get_ingredients_returns rt g recipe n W Hr)
    as [d [ns [E [K [_ Hin]]]]].
  exists d. rewrite E. split; [reflexivity|].
  intros x. rewrite K. unfold descendant_closure. rewrite <- Hin. split.
  - apply in_remove.
  - intros [H1 H2]. now apply in_in_remove.
Qed.

Lemma key_set_is_descendant_closure_witness :
  exists d,
    fst (get_ingredients insertion_runtime "A" 1 diamond) = Returns d
    /\ forall x, In x (Dict.keys d)
                 <-> descendant_closure diamond "A" x /\ x <> "A".
Proof.
  apply (key_set_is_descendant_closure insertion_runtime diamond "A" 1);
    reflexivity.
Defined.

(** C3, as the specification states it, fails: the exception raised for a
    name that is no node is no instance of [LookupError]. *)
Lemma lookup_error_refuted :
  ~ exists e,
      fst (get_ingredients insertion_runtime "NoSuchRecipe" 1 diamond)
      = Raises e
      /\ isinstance e cls_LookupError = true.
Proof.
  intros [e [E I]]. vm_compute in E. inversion E; subst. discriminate I.
Qed.

(** C3, amended. For a recipe name that is no node of the graph,
    [get_ingredients] raises [networkx.NodeNotFound], an instance of
    [NetworkXException] and not of [LookupError]; no mapping is returned
    and nothing is defaulted. *)
Theorem unknown_recipe_raises (rt : PyRuntime) (g : DiGraph)
  (recipe : node) (n : Z) :
  Dict.mem g recipe = false ->
  fst (get_ingredients rt recipe n g) = Raises (NodeNotFound recipe)
  /\ isinstance (NodeNotFound recipe) cls_NetworkXException = true
  /\ isinstance (NodeNotFound recipe) cls_LookupError = false.
Proof.
  intros H. unfold get_ingredients, bind, predecessor. rewrite H. simpl.
  repeat split.
Qed.

Lemma unknown_recipe_raises_witness :
  fst (get_ingredients insertion_runtime "NoSuchRecipe" 1 diamond)
  = Raises (NodeNotFound "NoSuchRecipe")
  /\ isinstance (NodeNotFound "NoSuchRecipe") cls_NetworkXException = true
  /\ isinstance (NodeNotFound "NoSuchRecipe") cls_LookupError = false.
Proof.
  apply (unknown_recipe_raises insertion_runtime diamond "NoSuchRecipe" 1).
  reflexivity.
Defined.

(** The program over any kind of number, taken on Python ints, is the
    program above. *)
Lemma generic_on_ints (rt : PyRuntime) (recipe : node) (n : Z) (g : DiGraph) :
  Generic.get_ingredients Z 0%Z Z.add Z.mul rt recipe n g
  = get_ingredients rt recipe n g.
Proof. reflexivity. Qed.

Lemma generic_build_graph_on_ints (rows : list row) :
  Generic.build_graph Z rows = build_graph rows.
Proof. reflexivity. Qed.




(** C5. For a graph that holds the recipe and every output quantity, the
    mapping [get_ingredients] returns has no key equal to the recipe. *)
Theorem no_self_entry (rt : PyRuntime) (g : DiGraph) (recipe : node) (n : Z) :
  wf_graph g = true -> Dict.mem g recipe = true ->
  exists d,
    fst (get_ingredients rt recipe n g) = Returns d
    /\ ~ In recipe (Dict.keys d).
Proof.
  intros W Hr. apply wf_graph_WF in W. apply DictFacts.mem_In in Hr.
  destruct (get_ingredients_returns rt g recipe n W Hr) as [d [ns [E [K _]]]].
  exists d. rewrite E, K. split; [reflexivity | apply remove_In].
Qed.

Lemma no_self_entry_witness :
  exists d,
    fst (get_ingredients insertion_runtime "B" 4 diamond) = Returns d
    /\ ~ In "B" (Dict.keys d).
Proof.
  apply (no_self_entry insertion_runtime diamond "B" 4); reflexivity.
Defined.

(** C6. On the graph of the single edge [A -> B] with rate [r], for every
    output quantity [n], [get_ingredients(graph, "A", n)] returns exactly
    [{"B": n * r}]. *)
Theorem direct_edge (rt : PyRuntime) (r n : Z) :
  fst (get_ingredients rt "A" n (single_edge r))
  = Returns [("B", (n * r)%Z)].
Proof. destruct rt as [si sp [|]]; vm_compute; reflexivity. Qed.

(** C7. [get_ingredients] leaves the graph it was given as it was (nodes,
    edges and rates), whatever the recipe and the output quantity and
    whether it returns or raises. *)
Theorem graph_unchanged (rt : PyRuntime) (g : DiGraph) (recipe : node)
  (n : Z) :
  snd (get_ingredients rt recipe n g) = g.
Proof. apply readonly_get_ingredients. Qed.

Lemma remove_as_filter (x : node) (f : node -> bool) (l : list node) :
  remove string_dec x (filter f l)
  = filter (fun y => f y && negb (String.eqb y x)) l.
Proof.
  induction l as [|y l IH]; simpl; [reflexivity|].
  destruct (f y); simpl; [|exact IH].
  destruct (string_dec x y) as [E|E]; destruct (String.eqb_spec y x) as [E'|E'];
    simpl; try congruence. now rewrite IH.
Qed.

Lemma NoDup_remove_all (x : node) (l : list node) :
  NoDup l -> NoDup (remove string_dec x l).
Proof.
  induction 1 as [|y l Hn ND IH]; simpl; [constructor|].
  destruct (string_dec x y); [assumption|].
  constructor; [|assumption]. intros H. apply in_remove in H. now destruct H.
Qed.

(** What [get_ingredients_returns] says, with the search result and the
    node list of the view named. *)
Lemma get_ingredients_keys rt (g : DiGraph) (recipe : node) (n : Z) :
  WF g -> In recipe (nodes g) ->
  exists d p ns,
    predecessor recipe g = (Returns p, g)
    /\ NoDup (Dict.keys p)
    /\ (forall x, In x (Dict.keys p) <-> reach g recipe x)
    /\ sg_nodes rt {| NODE_OK := filter (Dict.mem g) (Dict.keys p) |} g
       = (Returns ns, g)
    /\ NoDup ns
    /\ (forall x, In x ns <-> reach g recipe x)
    /\ get_ingredients rt recipe n g = (Returns d, g)
    /\ Dict.keys d = remove string_dec recipe ns.
Proof.
  intros W Hr. pose proof W as [ND _].
  destruct (predecessor_spec g recipe W Hr) as [p [Hp [NDp Hreach]]].
  destruct (sg_nodes_spec rt {| NODE_OK := filter (Dict.mem g) (Dict.keys p) |}
              g ND) as [ns [Hns [NDns Hmem]]].
  pose proof Hns as Hns'.
  set (sg := {| NODE_OK := filter (Dict.mem g) (Dict.keys p) |}) in *.
  assert (Hin : forall x, In x ns <-> reach g recipe x).
  { intros x. rewrite Hmem. unfold sg_mem, sg. simpl.
    rewrite andb_true_iff, mem_node_In, filter_In, DictFacts.mem_In, Hreach.
    split; [tauto|]. intros R.
    pose proof (reach_nodes g recipe x W Hr R). tauto. }
  assert (Hrec : In recipe ns) by (apply Hin; constructor).
  set (d0 := Dict.set
               (Dict.of_pairs
                  (combine ns (map (fun _ => 0%Z) (seq 0 (List.length ns)))))
               recipe n).
  assert (K0 : Dict.keys d0 = ns).
  { assert (E : map fst (combine ns (map (fun _ => 0%Z)
                                         (seq 0 (List.length ns)))) = ns).
    { apply map_fst_combine. now rewrite length_map, length_seq. }
    unfold d0. rewrite DictFacts.keys_set_in;
      rewrite DictFacts.keys_of_pairs; rewrite ?E; auto. }
  destruct (ingredients_loop_returns rt sg g recipe n ND
              (proj1 (Hmem recipe) Hrec) (Dict.keys d0) d0)
    as [d1 [H1 K1]].
  { intros x Hx. split; [assumption|]. apply Hmem. now rewrite <- K0. }
  exists (Dict.del d1 recipe), p, ns. repeat split; try assumption;
    try (now apply Hreach); try (now apply Hin).
  - unfold get_ingredients.
    erewrite bind_Returns; [|exact Hp].
    erewrite bind_Returns; [|reflexivity]. fold sg.
    erewrite bind_Returns; [|exact Hns]. fold d0.
    erewrite bind_Returns; [|exact H1].
    unfold dict_del.
    assert (Hm : Dict.mem d1 recipe = true).
    { apply DictFacts.mem_In. now rewrite K1, K0. }
    now rewrite Hm.
  - rewrite DictFacts.keys_del; [now rewrite K1, K0|].
    now rewrite K1, K0.
Qed.

(** C8, as the specification states it, fails in what it says of the
    order: on a graph built from the rows [X -> Z], [A -> Y], [A -> X] the
    search from [A] discovers [Y], [X], [Z] in that order, and the mapping
    lists [X], [Z], [Y]. *)
Lemma discovery_order_refuted :
  exists d,
    fst (get_ingredients insertion_runtime "A" 1 reordered) = Returns d
    /\ discovered reordered "A" = ["A"; "Y"; "X"; "Z"]
    /\ Dict.keys d = ["X"; "Z"; "Y"]
    /\ Dict.keys d <> remove string_dec "A" (discovered reordered "A").
Proof.
  exists [("X", 1%Z); ("Z", 1%Z); ("Y", 1%Z)].
  repeat split; try (vm_compute; reflexivity).
  vm_compute. discriminate.
Qed.

(** C8, amended. Two calls of [get_ingredients] one after the other in a
    run, with the same graph (holding the recipe), recipe and output
    quantity, return the same mapping with its entries in the same order.
    That order is the one in which the subgraph lists its nodes, not the
    one in which the search discovers them: the keys are the discovered
    nodes other than the recipe in some order, and in the order of the
    graph's own nodes when the discovered nodes are at least half of
    them. *)
Theorem deterministic_in_view_order (rt : PyRuntime) (g : DiGraph)
  (recipe : node) (n : Z) :
  wf_graph g = true -> Dict.mem g recipe = true ->
  let first := get_ingredients rt recipe n g in
  let second := get_ingredients rt recipe n (snd first) in
  exists d,
    fst first = Returns d
    /\ fst second = Returns d
    /\ Permutation (Dict.keys d)
                   (remove string_dec recipe (discovered g recipe))
    /\ (List.length (nodes g) <= 2 * List.length (discovered g recipe) ->
        Dict.keys d
        = filter (fun x => mem_node x (discovered g recipe)
                           && negb (String.eqb x recipe)) (nodes g)).
Proof.
  intros W Hr. apply wf_graph_WF in W. apply DictFacts.mem_In in Hr.
  destruct (get_ingredients_keys rt g recipe n W Hr)
    as [d [p [ns [Hp [NDp [Hreach [Hns [NDns [Hin [E K]]]]]]]]]].
  cbv zeta. rewrite E. simpl snd. rewrite E. simpl fst.
  exists d. split; [reflexivity|]. split; [reflexivity|].
  unfold discovered. rewrite Hp. simpl fst. cbv iota. split.
  - rewrite K. apply NoDup_Permutation; try now apply NoDup_remove_all.
    intros x. split; intros H; apply in_remove in H; destruct H as [H N];
      (apply in_in_remove; [assumption|]).
    + now apply Hreach, Hin.
    + now apply Hin, Hreach.
  - intros L. rewrite K. unfold sg_nodes, gets in Hns. cbn [NODE_OK] in Hns.
    assert (F : filter (Dict.mem g) (Dict.keys p) = Dict.keys p).
    { apply forallb_filter_id. apply forallb_forall. intros x Hx.
      apply DictFacts.mem_In. apply (reach_nodes g recipe x W Hr).
      now apply Hreach. }
    rewrite F in Hns. rewrite (nodup_fixed_point string_dec NDp) in Hns.
    assert (B : Nat.ltb (2 * List.length (Dict.keys p))
                        (List.length (nodes g)) = false).
    { apply Nat.ltb_ge. exact L. }
    unfold node in *. rewrite B in Hns. inversion Hns as [Hns0].
    apply remove_as_filter.
Qed.

Lemma deterministic_in_view_order_witness :
  let first := get_ingredients insertion_runtime "A" 1 reordered in
  let second := get_ingredients insertion_runtime "A" 1 (snd first) in
  exists d,
    fst first = Returns d
    /\ fst second = Returns d
    /\ Permutation (Dict.keys d)
                   (remove string_dec "A" (discovered reordered "A"))
    /\ (List.length (nodes reordered)
        <= 2 * List.length (discovered reordered "A") ->
        Dict.keys d
        = filter (fun x => mem_node x (discovered reordered "A")
                           && negb (String.eqb x "A")) (nodes reordered)).
Proof.
  apply (deterministic_in_view_order insertion_runtime reordered "A" 1);
    reflexivity.
Defined.

(** C9. For a graph that holds the recipe as a node without outgoing
    edges, [get_ingredients] returns the empty mapping. *)
Theorem leaf_recipe (rt : PyRuntime) (g : DiGraph) (recipe : node) (n : Z) :
  wf_graph g = true -> Dict.mem g recipe = true -> succs g recipe = [] ->
  fst (get_ingredients rt recipe n g) = Returns [].
Proof.
  intros W Hr L. apply wf_graph_WF in W. apply DictFacts.mem_In in Hr.
  destruct (get_ingredients_returns rt g recipe n W Hr)
    as [d [ns [E [K [_ Hin]]]]].
  rewrite E. simpl. f_equal.
  assert (Hk : Dict.keys d = []).
  { rewrite K. destruct (remove string_dec recipe ns) as [|x l] eqn:R;
      [reflexivity|].
    assert (Hx : In x (remove string_dec recipe ns))
      by (rewrite R; now left).
    apply in_remove in Hx. destruct Hx as [Hx N].
    apply Hin, (reach_leaf g recipe x L) in Hx. contradiction. }
  now apply map_eq_nil in Hk.
Qed.

Lemma leaf_recipe_witness :
  fst (get_ingredients insertion_runtime "D" 3 diamond) = Returns [].
Proof.
  apply (leaf_recipe insertion_runtime diamond "D" 3); reflexivity.
Defined.

(** C10. In the graph [build_graph] makes, rows with the same
    (Recipe, Ingredient) pair make one edge, not parallel ones: the
    successors of a node are listed once each, and the rate of an edge is
    that of the last row with its end points. *)
Theorem duplicate_rows_last_wins (rows : list row) (s t : node) :
  NoDup (succs (build_graph rows) s)
  /\ edge_rate (build_graph rows) s t = last_row_rate rows s t.
Proof.
  split; [apply WF_build_graph|].
  induction rows as [|[[s' t'] r] rows IH] using rev_ind; [reflexivity|].
  rewrite build_graph_snoc, edge_rate_add_edge.
  unfold last_row_rate. rewrite rev_app_distr. simpl.
  destruct (String.eqb s' s && String.eqb t' t); [reflexivity|].
  exact IH.
Qed.

(* ------------------------------------------------------------------ *)
(** ** The path search lists the simple paths, each once *)

Lemma chain_last (nbrs : node -> list node) (t : node) :
  forall p u, chain nbrs u p t -> p <> [] -> In t (map snd p).
Proof.
  induction p as [|[x y] p IH]; intros u C N; [contradiction|].
  destruct C as [_ [_ C]]. destruct p as [|e p].
  - simpl in C. subst. now left.
  - right. apply (IH y C). discriminate.
Qed.

Lemma simple_edge_paths_spec (nbrs : node -> list node) (t : node) :
  forall cutoff visited u p,
    In p (simple_edge_paths cutoff nbrs visited u t)
    <-> p <> [] /\ chain nbrs u p t /\ NoDup (map snd p)
        /\ (forall y, In y (map snd p) -> ~ In y visited)
        /\ List.length p <= cutoff.
Proof.
  induction cutoff as [|c IH]; intros visited u p; simpl.
  - split; [intros [] | intros [N [_ [_ [_ L]]]]].
    destruct p; [contradiction | simpl in L; lia].
  - rewrite in_flat_map. split.
    + intros [w [Hw Hp]].
      destruct (mem_node w visited) eqn:V; [destruct Hp|].
      apply mem_node_false in V.
      destruct (String.eqb_spec w t) as [E|E].
      * destruct Hp as [<-|[]]. subst w. simpl. repeat split;
          try discriminate; auto.
        -- repeat constructor. intros [].
        -- intros y [<-|[]]. exact V.
        -- lia.
      * apply in_map_iff in Hp. destruct Hp as [p' [<- Hp']].
        apply IH in Hp'. destruct Hp' as [N [C [ND [Hv L]]]].
        simpl. repeat split; try discriminate; auto.
        -- constructor; [|assumption]. intros Hin.
           apply (Hv w Hin). apply in_or_app. right. now left.
        -- intros y [<-|Hy]; [exact V|]. intros Hin.
           apply (Hv y Hy). apply in_or_app. now left.
        -- lia.
    + intros [N [C [ND [Hv L]]]].
      destruct p as [|[x w] p']; [contradiction|].
      simpl in C, ND, Hv, L. destruct C as [-> [Hw C]].
      exists w. split; [assumption|].
      assert (V : mem_node w visited = false).
      { apply mem_node_false. apply Hv. now left. }
      rewrite V. inversion ND as [|? ? Hn ND']; subst.
      destruct (String.eqb_spec w t) as [E|E].
      * subst w. destruct p' as [|e p']; [now left|].
        exfalso. apply Hn. apply (chain_last nbrs t _ t C). discriminate.
      * apply in_map. apply IH. repeat split; auto.
        -- intros ->. simpl in C. contradiction.
        -- intros y Hy Hin. apply in_app_or in Hin.
           destruct Hin as [Hin|[<-|[]]]; [|contradiction].
           apply (Hv y); [now right | assumption].
        -- lia.
Qed.

Lemma NoDup_flat_map {A B} (f : A -> list B) (l : list A) :
  NoDup l ->
  (forall a, In a l -> NoDup (f a)) ->
  (forall a a' b, In a l -> In a' l -> In b (f a) -> In b (f a') -> a = a') ->
  NoDup (flat_map f l).
Proof.
  induction l as [|a l IH]; intros ND Hf Hd; simpl; [constructor|].
  inversion ND as [|? ? Hn ND']; subst.
  apply NoDup_app.
  - apply Hf. now left.
  - apply IH; auto.
    + intros a' Ha'. apply Hf. now right.
    + intros a1 a2 b H1 H2. apply Hd; now right.
  - intros b Hb Hb'. apply in_flat_map in Hb'. destruct Hb' as [a' [Ha' Hb']].
    assert (a = a') by (apply (Hd a a' b); auto; [now left | now right]).
    subst. contradiction.
Qed.

Lemma NoDup_map_cons {A} (a : A) (l : list (list A)) :
  NoDup l -> NoDup (map (cons a) l).
Proof.
  induction 1 as [|p l Hn ND IH]; simpl; constructor; [|assumption].
  intros H. apply in_map_iff in H. destruct H as [p' [E Hp']].
  inversion E; subst. contradiction.
Qed.

Lemma simple_edge_paths_NoDup (nbrs : node -> list node) (t : node) :
  (forall x, NoDup (nbrs x)) ->
  forall cutoff visited u, NoDup (simple_edge_paths cutoff nbrs visited u t).
Proof.
  intros Hn. induction cutoff as [|c IH]; intros visited u; simpl;
    [constructor|].
  apply NoDup_flat_map; [apply Hn | |].
  - intros w _. destruct (mem_node w visited); [constructor|].
    destruct (String.eqb w t); [repeat constructor; intros []|].
    apply NoDup_map_cons, IH.
  - intros w w' p _ _ Hp Hp'.
    assert (H : forall w0, In p (if mem_node w0 visited then []
                 else if String.eqb w0 t then [[(u, w0)]]
                 else map (cons (u, w0))
                        (simple_edge_paths c nbrs (visited ++ [w0]) w0 t)) ->
               exists p', p = (u, w0) :: p').
    { intros w0 H0. destruct (mem_node w0 visited); [destruct H0|].
      destruct (String.eqb w0 t).
      - destruct H0 as [<-|[]]. now exists [].
      - apply in_map_iff in H0. destruct H0 as [p' [<- _]]. now exists p'. }
    destruct (H w Hp) as [p1 E1]. destruct (H w' Hp') as [p2 E2].
    rewrite E1 in E2. now inversion E2.
Qed.

Lemma flat_map_ext_on {A B} (f f' : A -> list B) (l : list A) :
  (forall a, In a l -> f a = f' a) -> flat_map f l = flat_map f' l.
Proof.
  induction l as [|a l IH]; intros H; simpl; [reflexivity|].
  rewrite (H a (or_introl eq_refl)), IH; [reflexivity|].
  intros a' Ha'. apply H. now right.
Qed.

(** The search asks for the successors of nodes it reached only. *)
Lemma simple_edge_paths_ext (nbrs nbrs' : node -> list node) (R : node -> Prop)
  (t : node) :
  (forall x, R x -> nbrs x = nbrs' x) ->
  (forall x y, R x -> In y (nbrs' x) -> R y) ->
  forall cutoff visited u, R u ->
    simple_edge_paths cutoff nbrs visited u t
    = simple_edge_paths cutoff nbrs' visited u t.
Proof.
  intros He Hs. induction cutoff as [|c IH]; intros visited u Ru; simpl;
    [reflexivity|].
  rewrite (He u Ru). apply flat_map_ext_on. intros w Hw.
  destruct (mem_node w visited); [reflexivity|].
  destruct (String.eqb w t); [reflexivity|].
  f_equal. apply IH. now apply (Hs u).
Qed.

(* ------------------------------------------------------------------ *)
(** ** What the loops of [get_ingredients] compute *)

Lemma sg_edge_rate_value (sg : SubGraph) (g : DiGraph) (x y : node) :
  In y (sg_succs sg g x) ->
  sg_edge_rate sg x y g = (Returns (rate_of g (x, y)), g).
Proof.
  unfold sg_succs, sg_edge_rate, rate_of. simpl.
  destruct (sg_mem sg g x); [|intros []].
  rewrite filter_In. intros [Hs Hy]. rewrite Hy.
  apply DictFacts.get_Some in Hs. destruct Hs as [r Hr].
  unfold edge_rate. now rewrite Hr.
Qed.

Lemma path_product_value (sg : SubGraph) (g : DiGraph) (path : list edge) :
  path_in sg g path ->
  forall n, path_product sg n path g = (Returns (path_value g n path), g).
Proof.
  unfold path_product, path_value, path_in.
  induction path as [|[u v] path IH]; intros Hp n; simpl; [reflexivity|].
  erewrite bind_Returns.
  - apply IH. intros x y H. apply Hp. now right.
  - erewrite bind_Returns; [reflexivity|].
    apply sg_edge_rate_value. apply Hp. now left.
Qed.

Lemma paths_loop_value sg (g : DiGraph) (n : Z) (ing : node) :
  forall paths d v,
    Dict.get d ing = Some v ->
    (forall path, In path paths -> path_in sg g path) ->
    exists d',
      for_each paths
        (fun path ingredients =>
           product <- path_product sg n path ;;
           dict_iadd ingredients ing product) d g = (Returns d', g)
      /\ Dict.keys d' = Dict.keys d
      /\ Dict.get d' ing = Some (v + Zsum (map (path_value g n) paths))%Z
      /\ forall x, x <> ing -> Dict.get d' x = Dict.get d x.
Proof.
  induction paths as [|path paths IH]; intros d v Hv Hp; simpl.
  - exists d. repeat split; auto. now rewrite Z.add_0_r.
  - assert (Hk : In ing (Dict.keys d)).
    { apply DictFacts.get_Some. now exists v. }
    destruct (IH (Dict.set d ing (v + path_value g n path)%Z)
                 (v + path_value g n path)%Z) as [d' [H' [K' [G' O']]]].
    + apply DictFacts.get_set_eq.
    + intros q Hq. apply Hp. now right.
    + exists d'. split; [|split; [|split]].
      * erewrite bind_Returns; [exact H'|].
        erewrite bind_Returns; [|apply path_product_value, Hp; now left].
        unfold dict_iadd. now rewrite Hv.
      * rewrite K'. now apply DictFacts.keys_set_in.
      * rewrite G'. f_equal. ring.
      * intros x Hx. rewrite (O' x Hx).
        apply DictFacts.get_set_neq. congruence.
Qed.

Lemma ingredients_loop_value rt sg (g : DiGraph) (recipe : node) (n : Z) :
  NoDup (nodes g) -> sg_mem sg g recipe = true ->
  forall ks d,
    NoDup ks ->
    (forall ing, In ing ks ->
                 In ing (Dict.keys d) /\ sg_mem sg g ing = true) ->
    exists d',
      for_each ks
        (fun ing ingredients =>
           paths <- all_simple_edge_paths rt sg recipe ing ;;
           for_each paths
             (fun path ingredients =>
                product <- path_product sg n path ;;
                dict_iadd ingredients ing product)
             ingredients) d g = (Returns d', g)
      /\ Dict.keys d' = Dict.keys d
      /\ (forall x, In x ks ->
            exists paths v,
              all_simple_edge_paths rt sg recipe x g = (Returns paths, g)
              /\ Dict.get d x = Some v
              /\ Dict.get d' x
                 = Some (v + Zsum (map (path_value g n) paths))%Z)
      /\ forall x, ~ In x ks -> Dict.get d' x = Dict.get d x.
Proof.
  intros ND Hr. induction ks as [|ing ks IH]; intros d NDk Hks; simpl.
  - exists d. repeat split; auto. intros x [].
  - inversion NDk as [|? ? Hn NDk']; subst.
    destruct (Hks ing (or_introl eq_refl)) as [Hk Hm].
    destruct (all_simple_edge_paths_returns rt sg g recipe ing ND Hr Hm)
      as [paths [Hp Hin]].
    destruct (proj2 (DictFacts.get_Some d ing) Hk) as [v Hv].
    destruct (paths_loop_value sg g n ing paths d v Hv Hin)
      as [d1 [H1 [K1 [G1 O1]]]].
    destruct (IH d1 NDk') as [d' [H' [K' [V' O']]]].
    { intros x Hx. rewrite K1. apply Hks. now right. }
    exists d'. split; [|split; [|split]].
    + erewrite bind_Returns; [exact H'|].
      erewrite bind_Returns; [exact H1 | exact Hp].
    + congruence.
    + intros x [<-|Hx].
      * exists paths, v. repeat split; auto. now rewrite (O' ing Hn).
      * destruct (V' x Hx) as [ps [w [E1 [E2 E3]]]].
        exists ps, w. repeat split; auto.
        rewrite <- E2. symmetry. apply O1. intros ->. contradiction.
    + intros x Hx. rewrite O'; [|intros ?; apply Hx; now right].
      apply O1. intros ->. apply Hx. now left.
Qed.

Lemma get_del_neq {V} (d : Dict.dict V) (k x : node) :
  x <> k -> Dict.get (Dict.del d k) x = Dict.get d x.
Proof.
  intros N. induction d as [|[k0 v0] d IH]; simpl; [reflexivity|].
  destruct (String.eqb_spec k0 k) as [E|E]; simpl.
  - subst. destruct (String.eqb_spec k x); [congruence | reflexivity].
  - now rewrite IH.
Qed.

Lemma get_zeros_from (l : list (node * Z)) :
  (forall k v, In (k, v) l -> v = 0%Z) ->
  forall d, (forall k v, Dict.get d k = Some v -> v = 0%Z) ->
    forall k v,
      Dict.get (fold_left (fun d kv => Dict.set d (fst kv) (snd kv)) l d) k
      = Some v -> v = 0%Z.
Proof.
  induction l as [|[k0 v0] l IH]; intros Hl d Hd k v; simpl; [apply Hd|].
  apply IH.
  - intros k' v' H. apply (Hl k'). now right.
  - intros k' v'. destruct (String.eqb_spec k0 k') as [E|E].
    + subst. rewrite DictFacts.get_set_eq. intros H. inversion H; subst.
      apply (Hl k'). now left.
    + rewrite DictFacts.get_set_neq by assumption. apply Hd.
Qed.

Lemma get_zeros {A} (ns : list node) (l : list A) (k : node) (v : Z) :
  Dict.get (Dict.of_pairs (combine ns (map (fun _ => 0%Z) l))) k = Some v ->
  v = 0%Z.
Proof.
  apply get_zeros_from.
  - intros k' v' H. apply in_combine_r in H. apply in_map_iff in H.
    now destruct H as [_ [<- _]].
  - intros k' v'. discriminate.
Qed.

(** On a graph that holds the recipe, each value of the mapping
    [get_ingredients] returns is the sum, over the paths the search lists
    from the recipe to the key, of the output quantity multiplied along the
    path. *)
Lemma get_ingredients_values rt (g : DiGraph) (recipe : node) (n : Z) :
  WF g -> In recipe (nodes g) ->
  exists d ns,
    get_ingredients rt recipe n g = (Returns d, g)
    /\ Dict.keys d = remove string_dec recipe ns
    /\ NoDup ns
    /\ (forall x, In x ns <-> reach g recipe x)
    /\ forall x, In x ns -> x <> recipe ->
         Dict.get d x
         = Some (Zsum (map (path_value g n)
                           (simple_edge_paths (List.length ns - 1) (succs g)
                                              [recipe] recipe x))).
Proof.
  intros W Hr. pose proof W as [ND [_ Hsucc]].
  destruct (predecessor_spec g recipe W Hr) as [p [Hp [NDp Hreach]]].
  destruct (sg_nodes_spec rt {| NODE_OK := filter (Dict.mem g) (Dict.keys p) |}
              g ND) as [ns [Hns [NDns Hmem]]].
  set (sg := {| NODE_OK := filter (Dict.mem g) (Dict.keys p) |}) in *.
  assert (Hin : forall x, In x ns <-> reach g recipe x).
  { intros x. rewrite Hmem. unfold sg_mem, sg. simpl.
    rewrite andb_true_iff, mem_node_In, filter_In, DictFacts.mem_In, Hreach.
    split; [tauto|]. intros R.
    pose proof (reach_nodes g recipe x W Hr R). tauto. }
  assert (Hrec : In recipe ns) by (apply Hin; constructor).
  set (zeros := combine ns (map (fun _ => 0%Z) (seq 0 (List.length ns)))).
  set (d0 := Dict.set (Dict.of_pairs zeros) recipe n).
  assert (Kz : Dict.keys (Dict.of_pairs zeros) = ns).
  { rewrite DictFacts.keys_of_pairs; unfold zeros;
      rewrite map_fst_combine; auto; now rewrite length_map, length_seq. }
  assert (K0 : Dict.keys d0 = ns).
  { unfold d0. rewrite DictFacts.keys_set_in; now rewrite Kz. }
  destruct (ingredients_loop_value rt sg g recipe n ND
              (proj1 (Hmem recipe) Hrec) (Dict.keys d0) d0)
    as [d1 [H1 [K1 [V1 _]]]].
  { now rewrite K0. }
  { intros x Hx. split; [assumption|]. apply Hmem. now rewrite <- K0. }
  exists (Dict.del d1 recipe), ns. split; [|split; [|split; [|split]]];
    try assumption.
  - unfold get_ingredients.
    erewrite bind_Returns; [|exact Hp].
    erewrite bind_Returns; [|reflexivity]. fold sg.
    erewrite bind_Returns; [|exact Hns]. fold zeros. fold d0.
    erewrite bind_Returns; [|exact H1].
    unfold dict_del.
    assert (Hm : Dict.mem d1 recipe = true).
    { apply DictFacts.mem_In. now rewrite K1, K0. }
    now rewrite Hm.
  - rewrite DictFacts.keys_del; [now rewrite K1, K0|].
    now rewrite K1, K0.
  - intros x Hx Nx. rewrite get_del_neq by assumption.
    destruct (V1 x) as [paths [v [E1 [E2 E3]]]]; [now rewrite K0|].
    rewrite E3.
    assert (v = 0%Z).
    { unfold d0 in E2. rewrite DictFacts.get_set_neq in E2 by congruence.
      unfold zeros in E2. now apply get_zeros in E2. }
    subst v. rewrite Z.add_0_l. do 3 f_equal.
    unfold all_simple_edge_paths in E1.
    erewrite bind_Returns in E1; [|exact Hns].
    rewrite (proj1 (Hmem recipe) Hrec), (proj1 (Hmem x) Hx) in E1.
    simpl negb in E1. cbv iota in E1.
    destruct (String.eqb_spec recipe x) as [E|_]; [congruence|].
    inversion E1. 
    apply simple_edge_paths_ext with (R := reach g recipe).
    + intros y Ry. unfold sg_succs.
      rewrite (proj1 (Hmem y) (proj2 (Hin y) Ry)).
      apply forallb_filter_id. apply forallb_forall. intros w Hw.
      assert (Rw : reach g recipe w) by (eapply reach_step; eassumption).
      apply Hin, Hmem in Rw. unfold sg_mem in Rw.
      now apply andb_true_iff in Rw.
    + intros y w Ry Hw. eapply reach_step; eassumption.
    + constructor.
Qed.

(* ------------------------------------------------------------------ *)
(** ** Simple paths of the graph *)

Lemma chain_reach (g : DiGraph) (s t : node) :
  forall p u, reach g s u -> chain (succs g) u p t ->
    forall y, In y (map snd p) -> reach g s y.
Proof.
  induction p as [|[x w] p IH]; intros u Ru C y Hy; [destruct Hy|].
  destruct C as [-> [Hw C]].
  assert (Rw : reach g s w) by (eapply reach_step; eassumption).
  destruct Hy as [<-|Hy]; [assumption|]. now apply (IH w Rw C).
Qed.

Lemma chain_snoc (nbrs : node -> list node) (y z : node) :
  In z (nbrs y) ->
  forall p u, chain nbrs u p y -> chain nbrs u (p ++ [(y, z)]) z.
Proof.
  intros Hz. induction p as [|[x w] p IH]; intros u C; simpl in *.
  - subst. auto.
  - destruct C as [-> [Hw C]]. auto.
Qed.

Lemma chain_prefix (nbrs : node -> list node) (t z : node) :
  forall p u, chain nbrs u p t -> In z (map snd p) ->
    exists p1 p2, p = p1 ++ p2 /\ p1 <> [] /\ chain nbrs u p1 z.
Proof.
  induction p as [|[x w] p IH]; intros u C Hz; [destruct Hz|].
  destruct C as [-> [Hw C]].
  destruct (string_dec w z) as [E|E].
  - subst. exists [(u, z)], p. repeat split; auto. discriminate.
  - destruct Hz as [Hz|Hz]; [contradiction|].
    destruct (IH w C Hz) as [p1 [p2 [-> [N C1]]]].
    exists ((u, w) :: p1), p2. repeat split; auto. discriminate.
Qed.

(** A node reached from [s] other than [s] is the end of a simple path
    from [s]. *)
Lemma reach_simple_path (g : DiGraph) (s x : node) :
  reach g s x -> x <> s -> exists p, simple_path g s x p.
Proof.
  intros R. assert (H : x = s \/ exists p, simple_path g s x p);
    [|destruct H; [contradiction | auto]].
  induction R as [|y z R IH Hz]; [now left|].
  destruct (string_dec z s) as [E|E]; [now left|]. right.
  destruct IH as [->|[p [N [C ND]]]].
  - exists [(s, z)]. repeat split; auto; try discriminate.
    repeat constructor; simpl; intuition congruence.
  - destruct (in_dec string_dec z (map snd p)) as [Hin|Hin].
    + destruct (chain_prefix _ _ z p s C Hin) as [p1 [p2 [-> [N1 C1]]]].
      exists p1. repeat split; auto.
      rewrite map_app, app_comm_cons in ND.
      now apply NoDup_app_remove_r in ND.
    + exists (p ++ [(y, z)]). repeat split.
      * intros H. now destruct p.
      * now apply chain_snoc.
      * rewrite map_app. simpl. inversion ND as [|? ? Hs ND']; subst.
        constructor.
        -- rewrite in_app_iff. intros [H|[H|[]]]; [contradiction|congruence].
        -- apply NoDup_app; auto.
           ++ repeat constructor. intros [].
           ++ intros w Hw [<-|[]]. contradiction.
Qed.

(** With the default cutoff the search loses no simple path of the
    graph. *)
Lemma simple_edge_paths_simple_path (g : DiGraph) (s x : node)
  (ns : list node) :
  NoDup ns -> (forall y, In y ns <-> reach g s y) ->
  forall p,
    In p (simple_edge_paths (List.length ns - 1) (succs g) [s] s x)
    <-> simple_path g s x p.
Proof.
  intros ND Hin p. rewrite simple_edge_paths_spec. unfold simple_path. split.
  - intros [N [C [NDp [Hv _]]]]. repeat split; auto.
    constructor; [|assumption]. intros H. apply (Hv s H). now left.
  - intros [N [C NDp]]. inversion NDp as [|? ? Hs NDp']; subst.
    repeat split; auto.
    + intros y Hy [<-|[]]. contradiction.
    + assert (I : incl (s :: map snd p) ns).
      { intros y [<-|Hy]; apply Hin; [constructor|].
        eapply chain_reach; [constructor | exact C | exact Hy]. }
      pose proof (NoDup_incl_length NDp I) as L.
      simpl in L. rewrite length_map in L. unfold edge, node in *. lia.
Qed.

(* ------------------------------------------------------------------ *)
(** ** Quantities *)

Lemma rates_at_least_spec (lo : Z) (g : DiGraph) (u v : node) (r : Z) :
  rates_at_least lo g = true -> edge_rate g u v = Some r -> (lo <= r)%Z.
Proof.
  unfold rates_at_least, edge_rate, adj. rewrite forallb_forall. intros H.
  destruct (Dict.get g u) as [d|] eqn:E; [|discriminate].
  apply dict_get_In in E. apply H in E. rewrite forallb_forall in E.
  intros Hr. apply dict_get_In in Hr. apply E in Hr. now apply Z.leb_le.
Qed.

Lemma path_value_ge (g : DiGraph) (p : list edge) :
  (forall e, In e p -> (1 <= rate_of g e)%Z) ->
  forall n, (0 <= n)%Z -> (n <= path_value g n p)%Z.
Proof.
  unfold path_value. induction p as [|e p IH]; intros Hp n Hn; simpl; [lia|].
  assert (1 <= rate_of g e)%Z by (apply Hp; now left).
  transitivity (n * rate_of g e)%Z; [nia|].
  apply IH; [|nia]. intros e' He'. apply Hp. now right.
Qed.

Lemma path_value_nonneg (g : DiGraph) (p : list edge) :
  (forall e, (0 <= rate_of g e)%Z) ->
  forall n, (0 <= n)%Z -> (0 <= path_value g n p)%Z.
Proof.
  intros Hr. unfold path_value. induction p as [|e p IH]; intros n Hn; simpl;
    [lia|].
  apply IH. specialize (Hr e). nia.
Qed.

Lemma Zsum_nonneg (l : list Z) :
  (forall z, In z l -> (0 <= z)%Z) -> (0 <= Zsum l)%Z.
Proof.
  induction l as [|z l IH]; intros H; simpl; [lia|].
  assert (0 <= z)%Z by (apply H; now left).
  assert (0 <= Zsum l)%Z by (apply IH; intros; apply H; now right). lia.
Qed.

Lemma chain_edges (nbrs : node -> list node) (t : node) :
  forall p u, chain nbrs u p t ->
    forall x y, In (x, y) p -> In y (nbrs x).
Proof.
  induction p as [|[a b] p IH]; intros u C x y H; [destruct H|].
  destruct C as [-> [Hb C]]. destruct H as [E|H].
  - now inversion E; subst.
  - eapply IH; eassumption.
Qed.

Lemma Zsum_ge (n : Z) (l : list Z) :
  (0 <= n)%Z -> l <> [] -> (forall z, In z l -> (n <= z)%Z) ->
  (n <= Zsum l)%Z.
Proof.
  intros Hn N H. destruct l as [|z l]; [contradiction|]. simpl.
  assert (n <= z)%Z by (apply H; now left).
  assert (0 <= Zsum l)%Z.
  { apply Zsum_nonneg. intros z' Hz'.
    assert (n <= z')%Z by (apply H; now right). lia. }
  lia.
Qed.

Lemma rate_of_ge (lo : Z) (g : DiGraph) (x y : node) :
  rates_at_least lo g = true -> In y (succs g x) ->
  (lo <= rate_of g (x, y))%Z.
Proof.
  intros H Hy. apply DictFacts.get_Some in Hy. destruct Hy as [r Hr].
  unfold rate_of. simpl. unfold edge_rate at 1. rewrite Hr.
  eapply rates_at_least_spec; eassumption.
Qed.

Lemma rate_of_nonneg (g : DiGraph) (e : edge) :
  rates_at_least 0 g = true -> (0 <= rate_of g e)%Z.
Proof.
  intros H. unfold rate_of.
  destruct (edge_rate g (fst e) (snd e)) as [r|] eqn:E; [|lia].
  eapply rates_at_least_spec; eassumption.
Qed.

(* ------------------------------------------------------------------ *)
(** ** Further properties of [get_ingredients] *)

(** Each value of the mapping [get_ingredients] returns is the sum, over
    all simple paths of the graph from the recipe to the key, each counted
    once, of the output quantity multiplied by the rates along the path. *)
Theorem values_sum_over_simple_paths (rt : PyRuntime) (g : DiGraph)
  (recipe : node) (n : Z) :
  wf_graph g = true -> Dict.mem g recipe = true ->
  exists d,
    fst (get_ingredients rt recipe n g) = Returns d
    /\ forall x, In x (Dict.keys d) ->
         exists paths,
           NoDup paths
           /\ (forall p, In p paths <-> simple_path g recipe x p)
           /\ Dict.get d x = Some (Zsum (map (path_value g n) paths)).
Proof.
  intros W Hr. apply wf_graph_WF in W. apply DictFacts.mem_In in Hr.
  destruct (get_ingredients_values rt g recipe n W Hr)
    as [d [ns [E [K [ND [Hin V]]]]]].
  exists d. rewrite E. split; [reflexivity|].
  intros x Hx. rewrite K in Hx. apply in_remove in Hx. destruct Hx as [Hx Nx].
  exists (simple_edge_paths (List.length ns - 1) (succs g) [recipe] recipe x).
  split; [|split].
  - apply simple_edge_paths_NoDup. apply W.
  - now apply simple_edge_paths_simple_path.
  - now apply V.
Qed.

Lemma values_sum_over_simple_paths_witness :
  exists d,
    fst (get_ingredients insertion_runtime "A" 1 diamond) = Returns d
    /\ forall x, In x (Dict.keys d) ->
         exists paths,
           NoDup paths
           /\ (forall p, In p paths <-> simple_path diamond "A" x p)
           /\ Dict.get d x = Some (Zsum (map (path_value diamond 1) paths)).
Proof.
  apply (values_sum_over_simple_paths insertion_runtime diamond "A" 1);
    reflexivity.
Defined.

(** When no rate of the graph is negative and the output quantity is not
    negative, no value of the mapping [get_ingredients] returns is
    negative. *)
Theorem values_nonnegative (rt : PyRuntime) (g : DiGraph) (recipe : node)
  (n : Z) :
  wf_graph g = true -> Dict.mem g recipe = true ->
  rates_at_least 0 g = true -> (0 <= n)%Z ->
  exists d,
    fst (get_ingredients rt recipe n g) = Returns d
    /\ forall x v, Dict.get d x = Some v -> (0 <= v)%Z.
Proof.
  intros W Hr Hrates Hn. apply wf_graph_WF in W. apply DictFacts.mem_In in Hr.
  destruct (get_ingredients_values rt g recipe n W Hr)
    as [d [ns [E [K [ND [Hin V]]]]]].
  exists d. rewrite E. split; [reflexivity|].
  intros x v Hv.
  assert (Hx : In x (Dict.keys d)) by (apply DictFacts.get_Some; now exists v).
  rewrite K in Hx. apply in_remove in Hx. destruct Hx as [Hx Nx].
  rewrite (V x Hx Nx) in Hv. inversion Hv; subst.
  apply Zsum_nonneg. intros z Hz. apply in_map_iff in Hz.
  destruct Hz as [p [<- _]]. apply path_value_nonneg; [|assumption].
  intros e. now apply rate_of_nonneg.
Qed.

Lemma values_nonnegative_witness :
  exists d,
    fst (get_ingredients insertion_runtime "A" 0 diamond) = Returns d
    /\ forall x v, Dict.get d x = Some v -> (0 <= v)%Z.
Proof.
  apply (values_nonnegative insertion_runtime diamond "A" 0);
    [reflexivity | reflexivity | reflexivity | lia].
Defined.

(** When every rate of the graph is at least 1 and the output quantity is
    not negative, every value of the mapping [get_ingredients] returns is
    at least the output quantity: each ingredient listed is needed. *)
Theorem values_at_least_output (rt : PyRuntime) (g : DiGraph)
  (recipe : node) (n : Z) :
  wf_graph g = true -> Dict.mem g recipe = true ->
  rates_at_least 1 g = true -> (0 <= n)%Z ->
  exists d,
    fst (get_ingredients rt recipe n g) = Returns d
    /\ forall x v, Dict.get d x = Some v -> (n <= v)%Z.
Proof.
  intros W Hr Hrates Hn. apply wf_graph_WF in W. apply DictFacts.mem_In in Hr.
  destruct (get_ingredients_values rt g recipe n W Hr)
    as [d [ns [E [K [ND [Hin V]]]]]].
  exists d. rewrite E. split; [reflexivity|].
  intros x v Hv.
  assert (Hx : In x (Dict.keys d)) by (apply DictFacts.get_Some; now exists v).
  rewrite K in Hx. apply in_remove in Hx. destruct Hx as [Hx Nx].
  rewrite (V x Hx Nx) in Hv. inversion Hv; subst.
  pose proof (simple_edge_paths_simple_path g recipe x ns ND Hin) as S.
  apply Zsum_ge; [assumption | |].
  - destruct (reach_simple_path g recipe x (proj1 (Hin x) Hx) Nx) as [p Hp].
    apply S in Hp. intros H. apply map_eq_nil in H.
    unfold node in *. rewrite H in Hp. destruct Hp.
  - intros z Hz. apply in_map_iff in Hz. destruct Hz as [p [<- Hp]].
    apply S in Hp. destruct Hp as [_ [C _]].
    apply path_value_ge; [|assumption].
    intros [a b] He. apply rate_of_ge; [assumption|].
    eapply chain_edges; eassumption.
Qed.

Lemma values_at_least_output_witness :
  exists d,
    fst (get_ingredients insertion_runtime "A" 4 diamond) = Returns d
    /\ forall x v, Dict.get d x = Some v -> (4 <= v)%Z.
Proof.
  apply (values_at_least_output insertion_runtime diamond "A" 4);
    [reflexivity | reflexivity | reflexivity | lia].
Defined.



(** Whatever the set iteration order of the run and the version of the
    path search, the mapping [get_ingredients] returns holds the same value
    for every key: only the order of its entries can differ. *)
Theorem values_independent_of_runtime (rt rt' : PyRuntime) (g : DiGraph)
  (recipe : node) (n : Z) :
  wf_graph g = true -> Dict.mem g recipe = true ->
  exists d d',
    fst (get_ingredients rt recipe n g) = Returns d
    /\ fst (get_ingredients rt' recipe n g) = Returns d'
    /\ forall x, Dict.get d x = Dict.get d' x.
Proof.
  intros W Hr. apply wf_graph_WF in W. apply DictFacts.mem_In in Hr.
  destruct (get_ingredients_values rt g recipe n W Hr)
    as [d [ns [E [K [ND [Hin V]]]]]].
  destruct (get_ingredients_values rt' g recipe n W Hr)
    as [d' [ns' [E' [K' [ND' [Hin' V']]]]]].
  exists d, d'. rewrite E, E'. repeat split.
  assert (L : List.length ns = List.length ns').
  { apply Permutation_length. apply NoDup_Permutation; auto.
    intros x. now rewrite Hin, Hin'. }
  intros x. destruct (in_dec string_dec x (Dict.keys d)) as [Hx|Hx].
  - pose proof Hx as Hx'. rewrite K in Hx. apply in_remove in Hx.
    destruct Hx as [Hx Nx].
    rewrite (V x Hx Nx), (V' x); auto; [now rewrite L|].
    now apply Hin', Hin.
  - assert (Hx' : ~ In x (Dict.keys d')).
    { rewrite K'. rewrite K in Hx. intros H. apply Hx.
      apply in_remove in H. destruct H as [H Nx].
      apply in_in_remove; [assumption|]. now apply Hin, Hin'. }
    apply DictFacts.get_None in Hx, Hx'. congruence.
Qed.

Lemma values_independent_of_runtime_witness :
  exists d d',
    fst (get_ingredients insertion_runtime "A" 2 diamond) = Returns d
    /\ fst (get_ingredients
              {| set_iter := nodup string_dec;
                 set_iter_perm := fun l => Permutation_refl _;
                 trivial_path := false |} "A" 2 diamond) = Returns d'
    /\ forall x, Dict.get d x = Dict.get d' x.
Proof.
  apply (values_independent_of_runtime insertion_runtime _ diamond "A" 2);
    reflexivity.
Defined.

(* ------------------------------------------------------------------ *)
(** ** Further properties of [build_graph] *)

Lemma mem_mem_node {V} (d : Dict.dict V) (k : node) :
  Dict.mem d k = mem_node k (Dict.keys d).
Proof.
  destruct (mem_node k (Dict.keys d)) eqn:E.
  - now apply DictFacts.mem_In, mem_node_In.
  - now apply DictFacts.mem_false, mem_node_false.
Qed.

Lemma nodes_add_node_order (g : DiGraph) (u : node) :
  nodes (add_node g u)
  = if mem_node u (nodes g) then nodes g else nodes g ++ [u].
Proof.
  unfold add_node, nodes. rewrite mem_mem_node.
  destruct (mem_node u (Dict.keys g)) eqn:E; [reflexivity|].
  apply DictFacts.keys_set_notin. now apply mem_node_false.
Qed.

Lemma nodes_add_edge_order (g : DiGraph) (u v : node) (r : Z) :
  nodes (add_edge g u v r) = nodes (add_node (add_node g u) v).
Proof.
  unfold add_edge, nodes. apply DictFacts.keys_set_in.
  fold (nodes (add_node (add_node g u) v)).
  rewrite !nodes_add_node. tauto.
Qed.

Lemma nodes_fold_add_edge (rows : list row) :
  forall g,
    nodes (fold_left (fun g '(s, t, r) => add_edge g s t r) rows g)
    = fold_left (fun acc x => if mem_node x acc then acc else acc ++ [x])
                (row_names rows) (nodes g).
Proof.
  induction rows as [|[[s t] r] rows IH]; intros g; simpl; [reflexivity|].
  now rewrite IH, nodes_add_edge_order, !nodes_add_node_order.
Qed.

Lemma nodes_build_graph_iff (rows : list row) (x : node) :
  In x (nodes (build_graph rows)) <-> In x (row_names rows).
Proof.
  induction rows as [|[[s t] r] rows IH] using rev_ind.
  - reflexivity.
  - rewrite build_graph_snoc, nodes_add_edge, IH.
    unfold row_names. rewrite flat_map_app, in_app_iff. simpl.
    intuition (subst; auto).
Qed.

(** For a data frame with strings in its [Recipe] and [Ingredient]
    columns, the nodes of the graph [nx.from_pandas_edgelist] makes of it
    in [build_graph] are those strings (recipes and ingredients alike), each
    once, in the order of their first occurrence in the rows. *)
Theorem build_graph_nodes (rows : list row) :
  nodes (build_graph rows) = first_seen (row_names rows)
  /\ NoDup (nodes (build_graph rows))
  /\ forall x, In x (nodes (build_graph rows)) <-> In x (row_names rows).
Proof.
  split; [apply nodes_fold_add_edge|]. split; [apply WF_build_graph|].
  apply nodes_build_graph_iff.
Qed.

Lemma succs_edge_rate (g : DiGraph) (s t : node) :
  In t (succs g s) <-> exists r, edge_rate g s t = Some r.
Proof. unfold succs, edge_rate. symmetry. apply DictFacts.get_Some. Qed.

Lemma row_pairs_snoc (rows : list row) (s t : node) (r : Z) :
  row_pairs (rows ++ [(s, t, r)]) = row_pairs rows ++ [(s, t)].
Proof. unfold row_pairs. now rewrite map_app. Qed.

Lemma succs_build_graph_iff (rows : list row) (s t : node) :
  In t (succs (build_graph rows) s) <-> In (s, t) (row_pairs rows).
Proof.
  rewrite succs_edge_rate.
  induction rows as [|[[s' t'] r'] rows IH] using rev_ind.
  - simpl. split; [intros [r H]; discriminate | intros []].
  - rewrite build_graph_snoc, row_pairs_snoc, in_app_iff.
    setoid_rewrite edge_rate_add_edge.
    destruct (String.eqb_spec s' s) as [E1|E1];
      destruct (String.eqb_spec t' t) as [E2|E2]; simpl; subst.
    + split; [intros _; right; now left | intros _; now exists r'].
    + rewrite IH. split; [tauto|]. intros [H|[H|[]]]; [assumption|].
      inversion H. contradiction.
    + rewrite IH. split; [tauto|]. intros [H|[H|[]]]; [assumption|].
      inversion H. contradiction.
    + rewrite IH. split; [tauto|]. intros [H|[H|[]]]; [assumption|].
      inversion H. contradiction.
Qed.

(** For a data frame with strings in its [Recipe] and [Ingredient]
    columns, the graph [nx.from_pandas_edgelist] makes of it in
    [build_graph] has an edge from [s] to [t] exactly when some row of the
    data frame holds [s] as recipe and [t] as ingredient. *)
Theorem build_graph_edges (rows : list row) (s t : node) :
  In t (succs (build_graph rows) s) <-> In (s, t) (row_pairs rows).
Proof. apply succs_build_graph_iff. Qed.

Lemma pairs_distinct_NoDup (l : list (node * node)) :
  pairs_distinct l = true -> NoDup l.
Proof.
  induction l as [|[s t] l IH]; simpl; [constructor|].
  rewrite andb_true_iff, negb_true_iff. intros [H1 H2].
  constructor; [|now apply IH].
  intros Hin. assert (E : existsb (fun '(s', t') =>
                             String.eqb s s' && String.eqb t t') l = true).
  { apply existsb_exists. exists (s, t). split; [assumption|].
    now rewrite !String.eqb_refl. }
  congruence.
Qed.

(** When no two rows have the same recipe and ingredient, the rate of
    every row is read back from the graph [build_graph] makes. *)
Theorem build_graph_rate_of_row (rows : list row) (s t : node) (r : Z) :
  pairs_distinct (row_pairs rows) = true -> In (s, t, r) rows ->
  edge_rate (build_graph rows) s t = Some r.
Proof.
  intros D. apply pairs_distinct_NoDup in D. revert D.
  induction rows as [|[[s' t'] r'] rows IH] using rev_ind; [intros _ []|].
  rewrite row_pairs_snoc, build_graph_snoc, edge_rate_add_edge.
  intros ND H. apply in_app_or in H. destruct H as [H|[H|[]]].
  - assert (P : In (s, t) (row_pairs rows)).
    { unfold row_pairs. apply in_map_iff. now exists (s, t, r). }
    assert (N : (s', t') <> (s, t)).
    { intros E. rewrite E in ND. apply NoDup_remove_2 in ND.
      rewrite app_nil_r in ND. contradiction. }
    destruct (String.eqb_spec s' s) as [E1|E1];
      destruct (String.eqb_spec t' t) as [E2|E2]; simpl;
      try (apply IH; [now apply NoDup_app_remove_r in ND | assumption]).
    subst. contradiction.
  - inversion H; subst. now rewrite !String.eqb_refl.
Qed.

Lemma build_graph_rate_of_row_witness :
  edge_rate (build_graph [("A", "B", 2%Z); ("A", "C", 3%Z)]) "A" "C"
  = Some 3%Z.
Proof.
  apply (build_graph_rate_of_row [("A", "B", 2%Z); ("A", "C", 3%Z)]).
  - reflexivity.
  - simpl. auto.
Defined.

(** For a data frame with strings in its [Recipe] and [Ingredient]
    columns and every string in those columns, [get_ingredients] on the
    graph [build_graph] makes of the data frame returns a mapping, and
    every ingredient a row holds for that recipe, other than the recipe
    itself, is among its keys. *)
Theorem build_then_query (rt : PyRuntime) (rows : list row)
  (recipe : node) (n : Z) :
  mem_node recipe (row_names rows) = true ->
  exists d,
    fst (get_ingredients rt recipe n (build_graph rows)) = Returns d
    /\ forall t r, In (recipe, t, r) rows -> t <> recipe ->
                   In t (Dict.keys d).
Proof.
  intros Hr. apply mem_node_In, nodes_build_graph_iff in Hr.
  destruct (get_ingredients_returns rt (build_graph rows) recipe n
              (WF_build_graph rows) Hr) as [d [ns [E [K [_ Hin]]]]].
  exists d. rewrite E. split; [reflexivity|].
  intros t r Ht Nt. rewrite K. apply in_in_remove; [assumption|].
  apply Hin. apply reach_step with (y := recipe); [constructor|].
  apply succs_build_graph_iff. unfold row_pairs. apply in_map_iff.
  now exists (recipe, t, r).
Qed.

Lemma build_then_query_witness :
  exists d,
    fst (get_ingredients insertion_runtime "B" 1
           (build_graph [("A", "B", 2%Z); ("B", "C", 3%Z)])) = Returns d
    /\ forall t r, In ("B", t, r) [("A", "B", 2%Z); ("B", "C", 3%Z)] ->
                   t <> "B" -> In t (Dict.keys d).
Proof.
  apply (build_then_query insertion_runtime
           [("A", "B", 2%Z); ("B", "C", 3%Z)] "B" 1).
  reflexivity.
Defined.

(* ------------------------------------------------------------------ *)
(** ** Graphs without cycles: the bill of materials *)


Section Ranked.
Variable rank : node -> nat.
Variable nbrs : node -> list node.
Hypothesis rank_lt : forall u v, In v (nbrs u) -> rank u < rank v.


End Ranked.











